(** * Verification of the time-indexed power attribution engine of
    GreenMicrobrenchFramework.

    Shallow embedding of
    - [analyzer/cpu_energy_attribution.py]: [normalize_ts], [ts_to_epoch],
      [nearest_by_time] and the methods [build_timeline], [align_timeline],
      [attribute], [export_per_service] of [ShellyPowerAttributor];
    - [adapters/metrics/prometheus_export.py]: [_first_non_empty];
    - [adapters/power/shelly_adapter.py]: [ShellyAdapter.stop].

    Further code covered: [export_core_series]
    ([adapters/metrics/prometheus_export.py]); the constructors of
    [ShellyAdapter] and [PrometheusAdapter], [ShellyAdapter.start],
    [_read_once] and the error record of [_loop]; and, in
    [runners/run_experiment.py], [parse_duration],
    [normalize_shelly_timestamp], [load_shelly_jsonl],
    [load_cadvisor_json] and the sequence of pipeline calls.

    Python floats are modelled by exact rationals [Q]; a raised exception
    is modelled by [None] (or by an explicit error constructor where the
    error value matters). *)

From Stdlib Require Import ZArith QArith Qabs List String Ascii Bool Lia.
Import ListNotations.

Notation "'let?' x := a 'in' b" :=
  (match a with Some x => b | None => None end)
  (at level 200, x name, a at level 100, b at level 200).
Notation "'let?' ' p := a 'in' b" :=
  (match a with Some p => b | None => None end)
  (at level 200, p pattern, a at level 100, b at level 200).

(* ------------------------------------------------------------------ *)
(** ** Python [datetime] values, [datetime.fromisoformat] and
       [datetime.isoformat] *)

Module Timestamp.

Open Scope Z_scope.

(** A [datetime]; [tzoff] is the UTC offset in microseconds of an aware
    value, [None] for a naive one. *)
Record datetime := mkDT {
  year : Z; month : Z; day : Z;
  hour : Z; minute : Z; second : Z; microsecond : Z;
  tzoff : option Z }.

Definition is_leap (y : Z) : bool :=
  (y mod 4 =? 0) && (negb (y mod 100 =? 0) || (y mod 400 =? 0)).

Definition days_in_month (y m : Z) : Z :=
  if m =? 2 then (if is_leap y then 29 else 28)
  else if (m =? 4) || (m =? 6) || (m =? 9) || (m =? 11) then 30
  else 31.

(** [MINYEAR = 1], [MAXYEAR = 9999]. *)
Definition valid_date (y m d : Z) : bool :=
  (1 <=? y) && (y <=? 9999) && (1 <=? m) && (m <=? 12)
  && (1 <=? d) && (d <=? days_in_month y m).

Definition valid_time (h mi s us : Z) : bool :=
  (0 <=? h) && (h <=? 23) && (0 <=? mi) && (mi <=? 59)
  && (0 <=? s) && (s <=? 59) && (0 <=? us) && (us <=? 999999).

(** *** Characters and bytes *)

Definition digit (c : ascii) : option Z :=
  let n := Z.of_nat (nat_of_ascii c) in
  if (48 <=? n) && (n <=? 57) then Some (n - 48) else None.

Definition is_digit (c : ascii) : bool :=
  match digit c with Some _ => true | None => false end.

Definition dig (k : Z) : ascii := ascii_of_nat (48 + Z.to_nat k).

(** [n] decimal digits, zero padded ([%0nd]). *)
Fixpoint pad (n : nat) (z : Z) : list ascii :=
  match n with
  | O => []
  | S n' => pad n' (z / 10) ++ [dig (z mod 10)]
  end.

(** A Rocq string stands for the Python [str] whose code points are its
    characters (U+0000..U+00FF).  The C implementation of
    [datetime.fromisoformat] works on the UTF-8 encoding of the string
    ([PyUnicode_AsUTF8AndSize]), a NUL-terminated buffer; bytes are
    [ascii] values here. *)
Definition utf8_char (c : ascii) : list ascii :=
  let n := nat_of_ascii c in
  if (n <? 128)%nat then [c]
  else [ascii_of_nat (192 + n / 64); ascii_of_nat (128 + n mod 64)].

Definition utf8 (l : list ascii) : list ascii := flat_map utf8_char l.

Definition NUL : ascii := Ascii.zero.

(** [*p]: the byte at index [i]; the terminating NUL past the end. *)
Definition rd (b : list ascii) (i : nat) : ascii := nth i b NUL.

(** The number of digits at the head of a byte list. *)
Fixpoint count_digits (l : list ascii) : nat :=
  match l with
  | c :: l' => if is_digit c then S (count_digits l') else O
  | [] => O
  end.

(** *** [datetime.fromisoformat] (CPython 3.11, Modules/_datetimemodule.c) *)

(** [parse_digits(ptr, var, num_digits)]: [num_digits] ASCII digits at
    index [p], accumulated into [acc]; the index after them. *)
Fixpoint parse_digits (b : list ascii) (p : nat) (n : nat) (acc : Z)
  : option (Z * nat) :=
  match n with
  | O => Some (acc, p)
  | S n' =>
      match digit (rd b p) with
      | Some d => parse_digits b (S p) n' (acc * 10 + d)
      | None => None
      end
  end.

(** [_find_isoformat_datetime_separator]; [None] is its result [-1]
    ([YYYY-Www-] of length 9), on which the date parse then always
    fails. *)
Definition find_isoformat_datetime_separator (b : list ascii) (len : nat)
  : option nat :=
  if (len =? 7)%nat then Some 7%nat
  else if Ascii.eqb (rd b 4) "-" then
    if Ascii.eqb (rd b 5) "W" then
      if (len <? 8)%nat then None
      else if (8 <? len)%nat && Ascii.eqb (rd b 8) "-" then
        if (len =? 9)%nat then None
        else if (10 <? len)%nat && is_digit (rd b 10) then Some 8%nat
        else Some 10%nat
      else Some 8%nat
    else Some 10%nat
  else if Ascii.eqb (rd b 4) "W" then
    let idx := (7 + count_digits (skipn 7 b))%nat in
    if (idx <? 9)%nat then Some idx
    else if Nat.even idx then Some 7%nat else Some 8%nat
  else Some 8%nat.

(** [_days_before_month], 1-based. *)
Definition days_before_month_table : list Z :=
  [0; 0; 31; 59; 90; 120; 151; 181; 212; 243; 273; 304; 334].

(** The C helpers with C's truncating [/] and [%] ([Z.quot], [Z.rem]);
    they differ from the floor versions only for the ISO year 0. *)
Definition c_days_before_year (year : Z) : Z :=
  let y := year - 1 in y * 365 + Z.quot y 4 - Z.quot y 100 + Z.quot y 400.

Definition c_days_before_month (year month : Z) : Z :=
  nth (Z.to_nat month) days_before_month_table 0
  + (if (2 <? month) && is_leap year then 1 else 0).

Definition ymd_to_ord (year month day : Z) : Z :=
  c_days_before_year year + c_days_before_month year month + day.

Definition iso_week1_monday (year : Z) : Z :=
  let first_day := ymd_to_ord year 1 1 in
  let first_weekday := Z.rem (first_day + 6) 7 in
  let week1_monday := first_day - first_weekday in
  if 3 <? first_weekday then week1_monday + 7 else week1_monday.

(** [ord_to_ymd]; it asserts [ordinal >= 1].  Below 1 (reached only from
    the ISO year 0) the C code reads [_days_before_month] out of bounds
    and yields a month below 1, which the constructor rejects: [None]. *)
Definition ord_to_ymd (ordinal : Z) : option (Z * Z * Z) :=
  if ordinal <? 1 then None else
  let o := ordinal - 1 in
  let n400 := o / 146097 in
  let n := o mod 146097 in
  let year := n400 * 400 + 1 in
  let n100 := n / 36524 in
  let n := n mod 36524 in
  let n4 := n / 1461 in
  let n := n mod 1461 in
  let n1 := n / 365 in
  let n := n mod 365 in
  let year := year + n100 * 100 + n4 * 4 + n1 in
  if (n1 =? 4) || (n100 =? 4) then Some (year - 1, 12, 31)
  else
    let leapyear := (n1 =? 3) && (negb (n4 =? 24) || (n100 =? 3)) in
    let month := Z.shiftr (n + 50) 5 in
    let preceding := nth (Z.to_nat month) days_before_month_table 0
                     + (if (2 <? month) && leapyear then 1 else 0) in
    let '(month, preceding) :=
      if n <? preceding
      then (month - 1, preceding - days_in_month year (month - 1))
      else (month, preceding) in
    Some (year, month, n - preceding + 1).

Definition iso_to_ymd (iso_year iso_week iso_day : Z) : option (Z * Z * Z) :=
  let week_ok :=
    if (iso_week <=? 0) || (53 <=? iso_week) then
      (iso_week =? 53) &&
      (let first_weekday := Z.rem (ymd_to_ord iso_year 1 1 + 6) 7 in
       (first_weekday =? 3) || ((first_weekday =? 2) && is_leap iso_year))
    else true in
  if negb week_ok then None
  else if (iso_day <=? 0) || (8 <=? iso_day) then None
  else ord_to_ymd (iso_week1_monday iso_year + ((iso_week - 1) * 7 + iso_day - 1)).

(** [parse_isoformat_date(dtstr, len, ...)], [len] the separator index. *)
Definition parse_isoformat_date (b : list ascii) (len : nat)
  : option (Z * Z * Z) :=
  let? '(year, p) := parse_digits b 0 4 0 in
  let uses_separator := Ascii.eqb (rd b p) "-" in
  let p := if uses_separator then S p else p in
  if Ascii.eqb (rd b p) "W" then
    let? '(iso_week, p) := parse_digits b (S p) 2 0 in
    let? iso_day :=
      if (p <? len)%nat then
        if uses_separator && negb (Ascii.eqb (rd b p) "-") then None
        else
          let p := if uses_separator then S p else p in
          let? '(d, _) := parse_digits b p 1 0 in Some d
      else Some 1 in
    iso_to_ymd year iso_week iso_day
  else
    let? '(month, p) := parse_digits b p 2 0 in
    if uses_separator && negb (Ascii.eqb (rd b p) "-") then None
    else
      let p := if uses_separator then S p else p in
      let? '(day, _) := parse_digits b p 2 0 in
      Some (year, month, day).

(** The loop [for (size_t i = 0; i < 3; ++i)] of [parse_hh_mm_ss_ff]:
    it ends by returning [c != '\0'] ([HmsReturn]) or by going on to the
    fraction at index [p] ([HmsFraction]). *)
Inductive hms_exit := HmsReturn (rv : bool) | HmsFraction (p : nat).

Fixpoint hms_loop (b : list ascii) (p_end : nat) (i n : nat)
    (has_separator : bool) (p : nat) (vals : list Z)
  : option (list Z * hms_exit) :=
  match n with
  | O => Some (vals, HmsFraction p)
  | S n' =>
      let? '(v, p) := parse_digits b p 2 0 in
      let c := rd b p in
      let p := S p in
      let has_separator := if (i =? 0)%nat then Ascii.eqb c ":" else has_separator in
      let vals := vals ++ [v] in
      if (p_end <=? p)%nat then Some (vals, HmsReturn (negb (Ascii.eqb c NUL)))
      else if has_separator && Ascii.eqb c ":" then
        hms_loop b p_end (S i) n' has_separator p vals
      else if Ascii.eqb c "." || Ascii.eqb c "," then Some (vals, HmsFraction p)
      else if negb has_separator then hms_loop b p_end (S i) n' has_separator (pred p) vals
      else None
  end.

Definition correction : list Z := [100000; 10000; 1000; 100; 10].

(** [parse_hh_mm_ss_ff(tstr, tstr_end, ...)]: hour, minute, second,
    microsecond and the result [1] ([true]) or [0] ([false]); [None] is a
    negative result.  At the fraction at least one byte remains before
    [p_end]. *)
Definition parse_hh_mm_ss_ff (b : list ascii) (p p_end : nat)
  : option (Z * Z * Z * Z * bool) :=
  let? '(vals, ex) := hms_loop b p_end 0 3 true p [] in
  let hour := nth 0 vals 0 in
  let minute := nth 1 vals 0 in
  let second := nth 2 vals 0 in
  match ex with
  | HmsReturn rv => Some (hour, minute, second, 0, rv)
  | HmsFraction p =>
      let len_remains := (p_end - p)%nat in
      let to_parse := if (6 <=? len_remains)%nat then 6%nat else len_remains in
      let? '(us, p) := parse_digits b p to_parse 0 in
      let us := if (to_parse <? 6)%nat then us * nth (pred to_parse) correction 0 else us in
      let p := (p + count_digits (skipn p b))%nat in
      Some (hour, minute, second, us, negb (Ascii.eqb (rd b p) NUL))
  end.

Definition is_tz_mark (c : ascii) : bool :=
  Ascii.eqb c "Z" || Ascii.eqb c "+" || Ascii.eqb c "-".

(** [do { ... } while (++tzinfo_pos < p_end)] from [pos], [n] more
    rounds. *)
Fixpoint find_tzinfo (b : list ascii) (pos n : nat) : nat :=
  if is_tz_mark (rd b pos) then pos
  else match n with
       | O => S pos
       | S n' => find_tzinfo b (S pos) n'
       end.

(** [parse_isoformat_time(dtstr, dtlen, ...)] on the bytes from index
    [p]: the time fields and, for a result [1], the offset as seconds and
    microseconds ([tzoffset], [tzmicrosecond]). *)
Definition parse_isoformat_time (b : list ascii) (p dtlen : nat)
  : option (Z * Z * Z * Z * option (Z * Z)) :=
  let p_end := (p + dtlen)%nat in
  let tzinfo_pos := find_tzinfo b p (pred dtlen) in
  let? '(hour, minute, second, us, rv) := parse_hh_mm_ss_ff b p tzinfo_pos in
  if (tzinfo_pos =? p_end)%nat then
    if rv then None else Some (hour, minute, second, us, None)
  else if Ascii.eqb (rd b tzinfo_pos) "Z" then
    if Ascii.eqb (rd b (S tzinfo_pos)) NUL
    then Some (hour, minute, second, us, Some (0, 0)) else None
  else
    let tzsign := if Ascii.eqb (rd b tzinfo_pos) "-" then -1 else 1 in
    let? '(tzhour, tzminute, tzsecond, tzus, rv) :=
      parse_hh_mm_ss_ff b (S tzinfo_pos) p_end in
    if rv then None
    else Some (hour, minute, second, us,
               Some (tzsign * (tzhour * 3600 + tzminute * 60 + tzsecond), tzus * tzsign)).

(** [tzinfo_from_isoformat_results]: a zero [tzoffset] gives UTC (its
    microseconds are not looked at); otherwise [timezone(timedelta)],
    which raises unless the offset lies strictly within one day.  The
    offset is kept in microseconds. *)
Definition tzinfo_from_isoformat_results (tz : option (Z * Z)) : option (option Z) :=
  match tz with
  | None => Some None
  | Some (tzoffset, tzusec) =>
      if tzoffset =? 0 then Some (Some 0)
      else
        let off := tzoffset * 1000000 + tzusec in
        if (-86400000000 <? off) && (off <? 86400000000) then Some (Some off) else None
  end.

(** The width of the separator: its UTF-8 lead byte. *)
Definition utf8_width (c : ascii) : nat :=
  let n := N_of_ascii c in
  if (N.land n 128 =? 0)%N then 1
  else if (N.land n 240 =? 224)%N then 3
  else if (N.land n 240 =? 240)%N then 4
  else 2.

(** [datetime_fromisoformat]: strings shorter than 7 characters are
    refused ([_sanitize_isoformat_str]); the date runs up to the
    separator, the time (if anything follows the separator) after it;
    the constructor checks the ranges of all fields. *)
Definition fromisoformat (s : list ascii) : option datetime :=
  if (List.length s <? 7)%nat then None else
  let b := utf8 s in
  let len := List.length b in
  let? sep := find_isoformat_datetime_separator b len in
  let? '(year, month, day) := parse_isoformat_date b sep in
  let? '(hour, minute, second, us, tz) :=
    if (sep <? len)%nat then
      let p := (sep + utf8_width (rd b sep))%nat in
      parse_isoformat_time b p (len - p)
    else Some (0, 0, 0, 0, None) in
  let? tzinfo := tzinfo_from_isoformat_results tz in
  if valid_date year month day && valid_time hour minute second us
  then Some (mkDT year month day hour minute second us tzinfo) else None.

(** *** [datetime.isoformat] *)

(** [format_utcoffset] with separator [':']. *)
Definition isoformat_tz (tz : option Z) : list ascii :=
  match tz with
  | None => []
  | Some off =>
      let a := Z.abs off in
      let microseconds := a mod 1000000 in
      let secs := a / 1000000 in
      let seconds := secs mod 60 in
      let minutes := (secs / 60) mod 60 in
      let hours := secs / 3600 in
      (if off <? 0 then "-"%char else "+"%char)
        :: pad 2 hours ++ ":"%char :: pad 2 minutes
        ++ (if negb (microseconds =? 0)
            then ":"%char :: pad 2 seconds ++ "."%char :: pad 6 microseconds
            else if negb (seconds =? 0) then ":"%char :: pad 2 seconds
            else [])
  end.

Definition isoformat (dt : datetime) : list ascii :=
  pad 4 (year dt) ++ "-"%char :: pad 2 (month dt) ++ "-"%char :: pad 2 (day dt)
  ++ "T"%char :: pad 2 (hour dt) ++ ":"%char :: pad 2 (minute dt)
  ++ ":"%char :: pad 2 (second dt)
  ++ (if microsecond dt =? 0 then [] else "."%char :: pad 6 (microsecond dt))
  ++ isoformat_tz (tzoff dt).

(** *** Conversion to UTC: [dt.astimezone(timezone.utc)]

    [dt - offset] as datetime arithmetic: the offset is below one day, so
    the date moves by at most one day; leaving [MINYEAR..MAXYEAR] raises
    [OverflowError]. *)

Definition next_day (y m d : Z) : Z * Z * Z :=
  if d <? days_in_month y m then (y, m, d + 1)
  else if m <? 12 then (y, m + 1, 1)
  else (y + 1, 1, 1).

Definition prev_day (y m d : Z) : Z * Z * Z :=
  if 1 <? d then (y, m, d - 1)
  else if 1 <? m then (y, m - 1, days_in_month y (m - 1))
  else (y - 1, 12, 31).

Definition astimezone_utc (dt : datetime) (off : Z) : option datetime :=
  let t := (hour dt * 3600 + minute dt * 60 + second dt) * 1000000
           + microsecond dt - off in
  let carry := t / 86400000000 in
  let t' := t mod 86400000000 in
  let '(y, m, d) :=
    if carry =? 0 then (year dt, month dt, day dt)
    else if 0 <? carry then next_day (year dt) (month dt) (day dt)
    else prev_day (year dt) (month dt) (day dt) in
  let sod := t' / 1000000 in
  if (1 <=? y) && (y <=? 9999)
  then Some (mkDT y m d (sod / 3600) ((sod mod 3600) / 60) (sod mod 60)
                  (t' mod 1000000) (Some 0))
  else None.

(** *** [normalize_ts]

<<
    dt = datetime.fromisoformat(ts)
    if dt.tzinfo is None:
        dt = dt.replace(tzinfo=timezone.utc)
    else:
        dt = dt.astimezone(timezone.utc)
    return dt.replace(microsecond=0).isoformat()
>>  *)

Definition to_utc (dt : datetime) : option datetime :=
  match tzoff dt with
  | None => Some (mkDT (year dt) (month dt) (day dt) (hour dt) (minute dt)
                       (second dt) (microsecond dt) (Some 0))
  | Some off => astimezone_utc dt off
  end.

Definition drop_microsecond (dt : datetime) : datetime :=
  mkDT (year dt) (month dt) (day dt) (hour dt) (minute dt) (second dt) 0
       (tzoff dt).

Definition normalize_ts (ts : string) : option string :=
  let? dt := fromisoformat (list_ascii_of_string ts) in
  let? u := to_utc dt in
  Some (string_of_list_ascii (isoformat (drop_microsecond u))).

(** *** [ts_to_epoch]

<<
    dt = datetime.fromisoformat(ts)
    if dt.tzinfo is None:
        dt = dt.replace(tzinfo=timezone.utc)
    return dt.timestamp()
>>  *)

Definition days_before_year (y : Z) : Z :=
  let y' := y - 1 in y' * 365 + y' / 4 - y' / 100 + y' / 400.

Definition days_before_month (y m : Z) : Z :=
  fold_left (fun acc k => if k <? m then acc + days_in_month y k else acc)
            [1; 2; 3; 4; 5; 6; 7; 8; 9; 10; 11; 12] 0.

Definition toordinal (y m d : Z) : Z :=
  days_before_year y + days_before_month y m + d.

(** [toordinal 1970 1 1 = 719163]; [timestamp()] is [(dt - _EPOCH)]
    in microseconds, divided by [10**6]. *)
Definition ts_to_epoch (ts : string) : option Q :=
  let? dt := fromisoformat (list_ascii_of_string ts) in
  let off := match tzoff dt with Some o => o | None => 0 end in
  Some (Qmake (((toordinal (year dt) (month dt) (day dt) - 719163) * 86400
                + hour dt * 3600 + minute dt * 60 + second dt) * 1000000
               + microsecond dt - off) 1000000).

(** The form the specification promises for normalized timestamps:
    ISO-8601, UTC, whole seconds, explicit [+00:00] offset. *)
Definition iso8601_utc_seconds (y mo d h mi s : Z) : string :=
  string_of_list_ascii
    (pad 4 y ++ "-"%char :: pad 2 mo ++ "-"%char :: pad 2 d
     ++ "T"%char :: pad 2 h ++ ":"%char :: pad 2 mi ++ ":"%char :: pad 2 s
     ++ ["+"; "0"; "0"; ":"; "0"; "0"]%char).

End Timestamp.

(* ------------------------------------------------------------------ *)
(** ** [ShellyPowerAttributor] (analyzer/cpu_energy_attribution.py) *)

Module Attribution.
Import Timestamp.
Open Scope Q_scope.

(** A Python [dict] with string keys, in insertion order. *)
Definition dict (A : Type) := list (string * A).

Fixpoint d_lookup {A} (k : string) (d : dict A) : option A :=
  match d with
  | [] => None
  | (k', v) :: d' => if String.eqb k k' then Some v else d_lookup k d'
  end.

(** [d[k] = v]: replaces the value of an existing key in place, appends a
    new key at the end. *)
Fixpoint d_set {A} (k : string) (v : A) (d : dict A) : dict A :=
  match d with
  | [] => [(k, v)]
  | (k', v') :: d' =>
      if String.eqb k k' then (k', v) :: d' else (k', v') :: d_set k v d'
  end.

(** Iteration over a list in an option (exception) monad. *)
Fixpoint fold_opt {A B} (f : A -> B -> option A) (l : list B) (acc : A)
  : option A :=
  match l with
  | [] => Some acc
  | x :: l' => let? acc' := f acc x in fold_opt f l' acc'
  end.

(** [{"power_w": ..., "voltage_V": ...}] *)
Record ShellyReading := mkShelly { power_w : Q; voltage_V : option Q }.

(** [{"cpu_cores_used": ..., "cpu_percent_host": ...}], with the key
    [estimated_power_from_shelly_watt] once [attribute] has set it. *)
Record ServiceRecord := mkService {
  cpu_cores_used : Q;
  cpu_percent_host : Q;
  estimated_power_from_shelly_watt : option Q }.

(** [timeline[t]]: the optional keys ["shelly"] and ["services"]. *)
Record TimelineEntry := mkEntry {
  shelly : option ShellyReading;
  services : option (dict ServiceRecord) }.

Definition Timeline := dict TimelineEntry.

(** [aligned[t] = {"shelly": ..., "services": ...}] *)
Record AlignedEntry := mkAligned {
  a_shelly : ShellyReading;
  a_services : dict ServiceRecord }.

Definition AlignedTimeline := dict AlignedEntry.

(** Raw samples as read from the JSON files; [None] is an absent key. *)
Record PowerSample := mkPowerSample {
  p_ts : option string; p_power_w : option Q; p_voltage_V : option Q }.

Record CpuSample := mkCpuSample {
  c_ts : option string; c_cpu_cores_used : option Q;
  c_cpu_percent_host : option Q }.

(** The constructor's configuration. *)
Record Attributor := mkAttributor {
  host_cpu_cores : Z; max_time_skew_s : Q; cpu_epsilon_cores : Q }.

(** *** [build_timeline] *)

Definition empty_entry : TimelineEntry := mkEntry None None.

(** [timeline.setdefault(ts, {})] *)
Definition entry_at (ts : string) (tl : Timeline) : TimelineEntry :=
  match d_lookup ts tl with Some e => e | None => empty_entry end.

(** One iteration of the Shelly loop. *)
Definition add_power (tl : Timeline) (s : PowerSample) : option Timeline :=
  match p_ts s, p_power_w s with
  | Some raw, Some pw =>
      let? ts := normalize_ts raw in
      let e := entry_at ts tl in
      Some (d_set ts (mkEntry (Some (mkShelly pw (p_voltage_V s))) (services e)) tl)
  | _, _ => Some tl
  end.

(** One iteration of the cAdvisor loop for [service].  The default
    argument of [s.get("cpu_percent_host", ...)] is evaluated whether or
    not the key is present, so [host_cpu_cores = 0] raises. *)
Definition add_cpu (a : Attributor) (service : string) (tl : Timeline)
    (s : CpuSample) : option Timeline :=
  match c_ts s, c_cpu_cores_used s with
  | Some raw, Some c =>
      let? ts := normalize_ts raw in
      if (host_cpu_cores a =? 0)%Z then None else
      let pct := match c_cpu_percent_host s with
                 | Some p => p
                 | None => (c / inject_Z (host_cpu_cores a)) * 100
                 end in
      let e := entry_at ts tl in
      let svcs := match services e with Some d => d | None => [] end in
      Some (d_set ts (mkEntry (shelly e)
                              (Some (d_set service (mkService c pct None) svcs))) tl)
  | _, _ => Some tl
  end.

Definition build_timeline (a : Attributor) (shelly_samples : list PowerSample)
    (cadvisor_by_service : dict (list CpuSample)) : option Timeline :=
  let? tl := fold_opt add_power shelly_samples [] in
  fold_opt (fun tl '(service, samples) => fold_opt (add_cpu a service) samples tl)
           cadvisor_by_service tl.

(** *** [nearest_by_time] *)

(** [delta < best_delta] *)
Definition Qltb (x y : Q) : bool := negb (Qle_bool y x).

(** The loop; [best] carries [(best_delta, best)]. *)
Fixpoint nearest_loop (candidates : dict ShellyReading) (target_epoch : Q)
    (best : option (Q * ShellyReading)) : option (option (Q * ShellyReading)) :=
  match candidates with
  | [] => Some best
  | (ts, obj) :: rest =>
      let? e := ts_to_epoch ts in
      let delta := Qabs (e - target_epoch) in
      let best' := match best with
                   | None => Some (delta, obj)
                   | Some (bd, _) => if Qltb delta bd then Some (delta, obj) else best
                   end in
      nearest_loop rest target_epoch best'
  end.

Definition nearest_by_time (candidates : dict ShellyReading) (target_epoch : Q)
    (max_skew_s : Q) : option (option ShellyReading) :=
  let? best := nearest_loop candidates target_epoch None in
  match best with
  | Some (bd, b) => if Qle_bool bd max_skew_s then Some (Some b) else Some None
  | None => Some None
  end.

(** *** [align_timeline] *)

Definition shelly_only (tl : Timeline) : dict ShellyReading :=
  flat_map (fun '(ts, data) =>
              match shelly data with Some r => [(ts, r)] | None => [] end) tl.

Definition service_only (tl : Timeline) : dict (dict ServiceRecord) :=
  flat_map (fun '(ts, data) =>
              match services data with Some d => [(ts, d)] | None => [] end) tl.

(** One iteration of [for ts, services in service_only.items()]. *)
Definition align_step (so : dict ShellyReading) (max_skew : Q)
    (aligned : AlignedTimeline) (item : string * dict ServiceRecord)
  : option AlignedTimeline :=
  let '(ts, svcs) := item in
  let? ts_epoch := ts_to_epoch ts in
  let? m := nearest_by_time so ts_epoch max_skew in
  match m with
  | None => Some aligned
  | Some r => Some (d_set ts (mkAligned r svcs) aligned)
  end.

Definition align_timeline (a : Attributor) (tl : Timeline)
  : option AlignedTimeline :=
  fold_opt (align_step (shelly_only tl) (max_time_skew_s a)) (service_only tl) [].

(** *** [attribute]

    Each instant's ["services"] dict is a distinct object (one per
    timeline key) and the service records inside it are distinct too, so
    the in-place writes of the source are modelled by rebuilding the
    values; the ["shelly"] dict shared between instants is only read. *)

(** [sum(s["cpu_cores_used"] for s in services.values())] *)
Definition cpu_total_of (svcs : dict ServiceRecord) : Q :=
  fold_left (fun acc '(_, s) => acc + cpu_cores_used s) svcs 0.

(** [s["estimated_power_from_shelly_watt"] = v] *)
Definition set_estimate (v : Q) (s : ServiceRecord) : ServiceRecord :=
  mkService (cpu_cores_used s) (cpu_percent_host s) (Some v).

(** The proportional loop; the division raises [ZeroDivisionError] when
    [cpu_total] is zero. *)
Fixpoint share_loop (cpu_total shelly_power : Q) (svcs : dict ServiceRecord)
  : option (dict ServiceRecord) :=
  match svcs with
  | [] => Some []
  | (n, s) :: rest =>
      if Qeq_bool cpu_total 0 then None else
      let frac := cpu_cores_used s / cpu_total in
      let? rest' := share_loop cpu_total shelly_power rest in
      Some ((n, set_estimate (frac * shelly_power) s) :: rest')
  end.

Definition attribute_entry (eps : Q) (data : AlignedEntry) : option AlignedEntry :=
  let svcs := a_services data in
  let shelly_power := power_w (a_shelly data) in
  let cpu_total := cpu_total_of svcs in
  if Qltb cpu_total eps
  then Some (mkAligned (a_shelly data)
                       (map (fun '(n, s) => (n, set_estimate 0 s)) svcs))
  else let? svcs' := share_loop cpu_total shelly_power svcs in
       Some (mkAligned (a_shelly data) svcs').

Fixpoint attribute_loop (eps : Q) (al : AlignedTimeline) : option AlignedTimeline :=
  match al with
  | [] => Some []
  | (ts, data) :: rest =>
      let? data' := attribute_entry eps data in
      let? rest' := attribute_loop eps rest in
      Some ((ts, data') :: rest')
  end.

Definition attribute (a : Attributor) (al : AlignedTimeline)
  : option AlignedTimeline :=
  attribute_loop (cpu_epsilon_cores a) al.

(** *** [export_per_service]: [out.setdefault(service, []).append({"ts": ts, **s})] *)

Definition append_reading (out : dict (list (string * ServiceRecord)))
    (service ts : string) (s : ServiceRecord) : dict (list (string * ServiceRecord)) :=
  let l := match d_lookup service out with Some l => l | None => [] end in
  d_set service (l ++ [(ts, s)]) out.

Definition export_per_service (al : AlignedTimeline)
  : dict (list (string * ServiceRecord)) :=
  fold_left (fun out '(ts, data) =>
               fold_left (fun out '(service, s) => append_reading out service ts s)
                         (a_services data) out)
            al [].

(** The pipeline as the runners call it. *)
Definition run_pipeline (a : Attributor) (ps : list PowerSample)
    (cs : dict (list CpuSample)) : option (dict (list (string * ServiceRecord))) :=
  let? tl := build_timeline a ps cs in
  let? al := align_timeline a tl in
  let? attributed := attribute a al in
  Some (export_per_service attributed).

(** *** Readings of the specification's statements *)

(** The specification's rule for the power entry of a timeline key:
    the reading of the last sample (in input order) that has both [ts]
    and [power_w] and whose timestamp normalizes to the key. *)
Definition power_key (s : PowerSample) : option (string * ShellyReading) :=
  match p_ts s, p_power_w s with
  | Some raw, Some pw =>
      let? k := normalize_ts raw in Some (k, mkShelly pw (p_voltage_V s))
  | _, _ => None
  end.

Definition last_power_reading (k : string) (ps : list PowerSample)
  : option ShellyReading :=
  fold_left (fun acc s =>
               match power_key s with
               | Some (k', r) => if String.eqb k k' then Some r else acc
               | None => acc
               end) ps None.

(** Sum of the estimates of an instant; [None] if one is missing. *)
Definition sum_estimates (svcs : dict ServiceRecord) : option Q :=
  fold_left (fun acc '(_, s) =>
               let? x := acc in
               let? v := estimated_power_from_shelly_watt s in Some (x + v))
            svcs (Some 0).

(** Consecutive entries of a series have non-decreasing times. *)
Fixpoint times_nondecreasing (l : list (string * ServiceRecord)) : bool :=
  match l with
  | (t1, _) :: (((t2, _) :: _) as rest) =>
      match ts_to_epoch t1, ts_to_epoch t2 with
      | Some e1, Some e2 => Qle_bool e1 e2 && times_nondecreasing rest
      | _, _ => false
      end
  | _ => true
  end.

(** The readings of [service] in the iteration order of an attributed
    timeline, each with its instant's timestamp. *)
Definition pivot (service : string) (al : AlignedTimeline)
  : list (string * ServiceRecord) :=
  flat_map (fun '(ts, data) =>
              map (fun '(_, s) => (ts, s))
                  (filter (fun '(n, _) => String.eqb n service) (a_services data)))
           al.

End Attribution.

(* ------------------------------------------------------------------ *)
(** ** [_first_non_empty] (adapters/metrics/prometheus_export.py) *)

Module Resolver.

(** [r.json()["data"]["result"]]: a JSON list of series, or another JSON
    value. *)
Inductive json_result (S : Type) :=
| JList (l : list S)
| JOther.

(** A call of [prom.range(q, start, end, step)]: it returns, or it raises
    (HTTP error, timeout, malformed body). *)
Inductive call_outcome (S : Type) :=
| Raised (err : string)
| Returned (v : json_result S).

(** What a caller of [_first_non_empty] observes: a return value or the
    exception that escaped. *)
Inductive result (S : Type) :=
| Exc (err : string)
| Ret (v : json_result S).

Arguments JList {S} l.
Arguments JOther {S}.
Arguments Raised {S} err.
Arguments Returned {S} v.
Arguments Exc {S} err.
Arguments Ret {S} v.

(** [_first_non_empty], with the queries sent to the backend, in order.
<<
    for q in queries:
        data = prom.range(q, start, end, step)
        if isinstance(data, list) and len(data) > 0:
            return data
    return []
>>  *)
Fixpoint first_non_empty {S : Type}
    (range : string -> string -> string -> string -> call_outcome S)
    (queries : list string) (start end_ step : string)
  : result S * list string :=
  match queries with
  | [] => (Ret (JList []), [])
  | q :: qs =>
      match range q start end_ step with
      | Raised e => (Exc e, [q])
      | Returned (JList (x :: xs)) => (Ret (JList (x :: xs)), [q])
      | Returned _ =>
          let (r, sent) := first_non_empty range qs start end_ step in
          (r, q :: sent)
      end
  end.

(** A candidate "yields a non-empty series". *)
Definition nonempty_list {S : Type} (o : call_outcome S) : bool :=
  match o with Returned (JList (_ :: _)) => true | _ => false end.

(** A candidate the loop passes over: it returned, but not a non-empty
    list. *)
Definition skipped_candidate {S : Type} (o : call_outcome S) : bool :=
  match o with
  | Returned (JList (_ :: _)) => false
  | Returned _ => true
  | Raised _ => false
  end.

End Resolver.

(* ------------------------------------------------------------------ *)
(** ** [ShellyAdapter] (adapters/power/shelly_adapter.py) *)

Module Shelly.

(** A [threading.Thread] handle. *)
Record thread := mkThread { thread_id : nat }.

(** The adapter's fields; [thr], [run], [out_path], [hz] are the source's
    [_thr], [_run], [_out_path], [_hz]. *)
Record ShellyAdapter := mkAdapter {
  base_url : string;
  timeout : Q;
  switch_id : Z;
  auth : option (string * string);
  thr : option thread;
  run : bool;
  out_path : option string;
  hz : Q }.

(** Observable effects of [stop] on the sampler thread. *)
Inductive event :=
| Join (t : thread) (join_timeout : Q).

Definition set_run (b : bool) (a : ShellyAdapter) : ShellyAdapter :=
  mkAdapter (base_url a) (timeout a) (switch_id a) (auth a) (thr a) b
            (out_path a) (hz a).

Definition set_thr (t : option thread) (a : ShellyAdapter) : ShellyAdapter :=
  mkAdapter (base_url a) (timeout a) (switch_id a) (auth a) t (run a)
            (out_path a) (hz a).

(** [stop]; the sampler thread only reads [_run], so the adapter's
    fields are written by this method alone.
<<
    if not self._run:
        return
    self._run = False
    if self._thr:
        self._thr.join(timeout=5.0)
        self._thr = None
>>  *)
Definition stop (self : ShellyAdapter) : ShellyAdapter * list event :=
  if negb (run self) then (self, []) else
  let self := set_run false self in
  match thr self with
  | Some t => (set_thr None self, [Join t 5])
  | None => (self, [])
  end.

End Shelly.

(* ------------------------------------------------------------------ *)
(** ** [export_core_series] (adapters/metrics/prometheus_export.py) *)

Module CoreSeries.
Import Resolver.

Definition req_candidates : list string := [
  "sum by (service_name) (rate(http_server_request_duration_count[1m]))";
  "sum by (service_name) (rate(http_server_request_duration_seconds_count[1m]))";
  "sum by (service_name) (rate(otel_http_server_duration_count[1m]))";
  "sum by (service_name) (rate(flask_http_request_duration_seconds_count[1m]))";
  "sum by (net_peer_name) (rate(otel_http_client_duration_milliseconds_count[1m]))";
  "sum by (exported_job) (rate(otel_http_client_duration_milliseconds_count[1m]))"]%string.

Definition p95_candidates : list string := [
  "histogram_quantile(0.95, sum by (le, service_name) (rate(http_server_request_duration_bucket[5m])))";
  "histogram_quantile(0.95, sum by (le, service_name) (rate(http_server_request_duration_seconds_bucket[5m])))";
  "histogram_quantile(0.95, sum by (le, service_name) (rate(otel_http_server_duration_bucket[5m])))";
  "histogram_quantile(0.95, sum by (le, service_name) (rate(flask_http_request_duration_seconds_bucket[5m])))";
  "histogram_quantile(0.95, sum by (le, net_peer_name) (rate(otel_http_client_duration_milliseconds_bucket[5m])))";
  "histogram_quantile(0.95, sum by (le, exported_job) (rate(otel_http_client_duration_milliseconds_bucket[5m])))"]%string.

Definition cpu_candidates : list string := [
  "sum by (container_label_com_docker_compose_service) (rate(container_cpu_usage_seconds_total[1m]))";
  "sum by (container, image, name) (rate(container_cpu_usage_seconds_total[1m]))"]%string.

(** What the function does to the outside world, in order: the range
    queries it sends and the files it writes. *)
Inductive effect (S : Type) :=
| Queried (q : string)
| Written (path : string) (v : json_result S).

Arguments Queried {S} q.
Arguments Written {S} path v.

(** How the call ends: it returns [None], or an exception escapes. *)
Inductive status :=
| Completed
| Failed (err : string).

(** [_first_non_empty(prom, qs, start, end, step)] with its queries as
    effects. *)
Definition resolve {S : Type}
    (range : string -> string -> string -> string -> call_outcome S)
    (qs : list string) (start end_ step : string) : result S * list (effect S) :=
  let (r, sent) := first_non_empty range qs start end_ step in
  (r, map Queried sent).

(** [with open(out_paths[key], "w") as f: json.dump(series, f)]: a
    missing key raises [KeyError]; [can_open path] tells whether [open]
    succeeds (it raises [OSError] otherwise). *)
Definition dump_to {S : Type} (can_open : string -> bool)
    (out_paths : Attribution.dict string) (key : string) (v : json_result S)
  : status * list (effect S) :=
  match Attribution.d_lookup key out_paths with
  | None => (Failed "KeyError", [])
  | Some path =>
      if can_open path then (Completed, [Written path v]) else (Failed "OSError", [])
  end.

Definition export_core_series {S : Type}
    (range : string -> string -> string -> string -> call_outcome S)
    (can_open : string -> bool) (start_iso end_iso step : string)
    (out_paths : Attribution.dict string) : status * list (effect S) :=
  let (r1, e1) := resolve range req_candidates start_iso end_iso step in
  match r1 with
  | Exc e => (Failed e, e1)
  | Ret req_series =>
  let (r2, e2) := resolve range p95_candidates start_iso end_iso step in
  match r2 with
  | Exc e => (Failed e, e1 ++ e2)
  | Ret p95_series =>
  let (r3, e3) := resolve range cpu_candidates start_iso end_iso step in
  match r3 with
  | Exc e => (Failed e, e1 ++ e2 ++ e3)
  | Ret cpu_series =>
  let (s4, w1) := dump_to can_open out_paths "requests" req_series in
  match s4 with
  | Failed e => (Failed e, e1 ++ e2 ++ e3 ++ w1)
  | Completed =>
  let (s5, w2) := dump_to can_open out_paths "p95" p95_series in
  match s5 with
  | Failed e => (Failed e, e1 ++ e2 ++ e3 ++ w1 ++ w2)
  | Completed =>
  let (s6, w3) := dump_to can_open out_paths "cpu" cpu_series in
  (s6, e1 ++ e2 ++ e3 ++ w1 ++ w2 ++ w3)
  end end end end end.

End CoreSeries.

(* ------------------------------------------------------------------ *)
(** ** Adapter construction and the sampler's life cycle
       (adapters/power/shelly_adapter.py,
       adapters/metrics/prometheus_adapter.py) *)

Module AdapterLife.
Import Shelly.

Fixpoint drop_slashes (l : list ascii) : list ascii :=
  match l with
  | "/"%char :: l' => drop_slashes l'
  | _ => l
  end.

(** [s.rstrip("/")] *)
Definition rstrip_slash (s : string) : string :=
  string_of_list_ascii (rev (drop_slashes (rev (list_ascii_of_string s)))).

(** [ShellyAdapter.__init__] *)
Definition init (base_url : string) (timeout : Q) (switch_id : Z)
    (auth : option (string * string)) : ShellyAdapter :=
  mkAdapter (rstrip_slash base_url) timeout switch_id auth None false None 1.

(** [f"{self.base_url}/rpc/Switch.GetStatus"] *)
Definition status_url (a : ShellyAdapter) : string :=
  (base_url a ++ "/rpc/Switch.GetStatus")%string.

(** [PrometheusAdapter]: its constructor and the URL of [range]. *)
Record PrometheusAdapter := mkPrometheus { base : string; prom_timeout : Q }.

Definition prometheus_init (base_url : string) (timeout : Q) : PrometheusAdapter :=
  mkPrometheus (rstrip_slash base_url) timeout.

Definition query_range_url (p : PrometheusAdapter) : string :=
  (base p ++ "/api/v1/query_range")%string.

(** Events on the adapter's sampler thread objects: a thread created and
    started, a thread joined.  [join(timeout=5.0)] returns after at most
    five seconds whether or not the thread has ended: [_loop] sleeps
    [1 / hz] seconds between reads, so a joined thread may still run. *)
Inductive life_event :=
| Started (t : thread)
| Joined (t : thread).

Definition of_stop_event (e : event) : life_event :=
  match e with Join t _ => Joined t end.

(** [start]; [fresh] is the new [threading.Thread] object.
<<
    if self._run:
        return
    self._hz = hz
    self._out_path = Path(out_path)
    self._run = True
    self._thr = threading.Thread(target=self._loop, daemon=True)
    self._thr.start()
>>  *)
Definition start (self : ShellyAdapter) (out_path : string) (hz : Q) (fresh : thread)
  : ShellyAdapter * list life_event :=
  if run self then (self, []) else
  (mkAdapter (base_url self) (timeout self) (switch_id self) (auth self)
             (Some fresh) true (Some out_path) hz,
   [Started fresh]).

(** A caller's sequence of calls. *)
Inductive call :=
| CallStart (out_path : string) (hz : Q)
| CallStop.

(** Runs the calls in order; the [n]-th thread object created is
    [mkThread n]. *)
Fixpoint run_calls (self : ShellyAdapter) (next : nat) (calls : list call)
  : ShellyAdapter * list life_event :=
  match calls with
  | [] => (self, [])
  | CallStart p h :: calls' =>
      let '(self', ev) := start self p h (mkThread next) in
      let '(self'', ev') := run_calls self' (S next) calls' in
      (self'', ev ++ ev')
  | CallStop :: calls' =>
      let '(self', ev) := stop self in
      let '(self'', ev') := run_calls self' next calls' in
      (self'', map of_stop_event ev ++ ev')
  end.

(** The thread object held in [_thr] after a sequence of events: every
    start happens while no thread is held, every join is on the thread
    held, which is then released.  It says nothing of which threads are
    still running. *)
Fixpoint held_thread (held : option thread) (evs : list life_event)
  : option (option thread) :=
  match evs with
  | [] => Some held
  | Started t :: evs' =>
      match held with None => held_thread (Some t) evs' | Some _ => None end
  | Joined t :: evs' =>
      match held with
      | Some t' => if Nat.eqb (thread_id t) (thread_id t') then held_thread None evs'
                   else None
      | None => None
      end
  end.

End AdapterLife.

(* ------------------------------------------------------------------ *)
(** ** Shelly records: [_read_once], the error record of [_loop], and the
       runners' [load_shelly_jsonl] *)

Module ShellyRecords.
Import Timestamp.

(** A JSON value as [json.loads] or [r.json()] returns it; an object is
    the Python dict built from it (its keys distinct). *)
#[warnings="-register-all"]
Inductive json :=
| JNull
| JBool (b : bool)
| JNum (q : Q)
| JStr (s : string)
| JArr (l : list json)
| JObj (kv : list (string * json)).

(** [float(v)]; [parse_float] is [float] on a string. *)
Definition py_float (parse_float : string -> option Q) (v : json) : option Q :=
  match v with
  | JNum q => Some q
  | JBool b => Some (if b then 1 else 0)%Q
  | JStr s => parse_float s
  | _ => None
  end.

Definition get (d : list (string * json)) (k : string) (default : json) : json :=
  match Attribution.d_lookup k d with Some v => v | None => default end.

(** [datetime.now(timezone.utc).replace(microsecond=0).isoformat()] *)
Definition now_ts (now : datetime) : string :=
  string_of_list_ascii (isoformat (drop_microsecond now)).

(** [_read_once]; [resp] is [r.json()], [None] when the request, the
    status check or the decoding raises.  [data.get] on a value that is
    not a dict raises [AttributeError]. *)
Definition read_once (parse_float : string -> option Q) (now : datetime)
    (resp : option json) : option (list (string * json)) :=
  let? data := resp in
  match data with
  | JObj d =>
      let? pw := py_float parse_float (get d "apower" (JNum 0)) in
      let out := [("ts", JStr (now_ts now)); ("power_w", JNum pw);
                  ("voltage_V", get d "voltage" JNull)]%string in
      match get d "aenergy" JNull with
      | JObj ae =>
          match Attribution.d_lookup "total" ae with
          | Some t => let? e := py_float parse_float t in
                      Some (out ++ [("energy_total_Wh"%string, JNum e)])
          | None => Some out
          end
      | _ => Some out
      end
  | _ => None
  end.

(** One record of [_loop]: the reading, or
    [{"ts": ..., "error": str(e)}] when [_read_once] raised ([now'] is the
    second call of [datetime.now]). *)
Definition loop_record (parse_float : string -> option Q) (now now' : datetime)
    (resp : option json) (err : string) : list (string * json) :=
  match read_once parse_float now resp with
  | Some r => r
  | None => [("ts", JStr (now_ts now')); ("error", JStr err)]%string
  end.

(** [key in rec]: dict membership, list membership, substring test for a
    string; [TypeError] for a number, a boolean or [None]. *)
Definition contains (key : string) (v : json) : option bool :=
  match v with
  | JObj d => Some (match Attribution.d_lookup key d with Some _ => true | None => false end)
  | JArr l => Some (existsb (fun x => match x with
                                     | JStr s => String.eqb s key
                                     | _ => false
                                     end) l)
  | JStr s => Some (match String.index 0 key s with Some _ => true | None => false end)
  | _ => None
  end.

(** [load_shelly_jsonl]; [loads] is [json.loads], [None] when it raises.
<<
    for line in f:
        try:
            rec = json.loads(line)
        except Exception:
            continue
        if "ts" in rec and "power_w" in rec:
            samples.append(rec)
>>  *)
Fixpoint load_shelly_jsonl (loads : string -> option json) (lines : list string)
  : option (list json) :=
  match lines with
  | [] => Some []
  | line :: rest =>
      match loads line with
      | None => load_shelly_jsonl loads rest
      | Some r =>
          let? has_ts := contains "ts" r in
          let? keep := (if has_ts then contains "power_w" r else Some false) in
          let? rest' := load_shelly_jsonl loads rest in
          Some (if keep then r :: rest' else rest')
      end
  end.

End ShellyRecords.

(* ------------------------------------------------------------------ *)
(** ** The runner's loaders (runners/run_experiment.py) *)

Module Runner.
Import Timestamp Attribution.
Open Scope Q_scope.

(** A sample of the cAdvisor JSON file: a string [ts], numeric
    [cpu_cores_used] and [cpu_percent_host], each possibly absent. *)
Record RawCpuSample := mkRawCpu {
  r_ts : option string; r_cpu_cores_used : option Q; r_cpu_percent_host : option Q }.

(** The loop body of [load_cadvisor_json]; [None] is [continue].
<<
    if "ts" not in s:
        continue
    if "cpu_cores_used" in s:
        cores = float(s["cpu_cores_used"])
    elif "cpu_percent_host" in s:
        cores = float(s["cpu_percent_host"]) / 100 * host_cpu_cores
    else:
        continue
    clean.append({"ts": s["ts"], "cpu_cores_used": cores,
                  "cpu_percent_host": float(s.get("cpu_percent_host", 0.0))})
>>  *)
Definition clean_sample (host_cpu_cores : Z) (s : RawCpuSample) : option CpuSample :=
  match r_ts s with
  | None => None
  | Some ts =>
      let pct := match r_cpu_percent_host s with Some p => p | None => 0 end in
      match r_cpu_cores_used s, r_cpu_percent_host s with
      | Some c, _ => Some (mkCpuSample (Some ts) (Some c) (Some pct))
      | None, Some p =>
          Some (mkCpuSample (Some ts) (Some (p / 100 * inject_Z host_cpu_cores)) (Some pct))
      | None, None => None
      end
  end.

Definition clean_samples (host_cpu_cores : Z) (samples : list RawCpuSample)
  : list CpuSample :=
  flat_map (fun s => match clean_sample host_cpu_cores s with
                     | Some c => [c]
                     | None => []
                     end) samples.

(** [load_cadvisor_json] on the parsed file: [out[service] = clean] when
    [clean] is non-empty. *)
Definition load_cadvisor_json (raw : dict (list RawCpuSample)) (host_cpu_cores : Z)
  : dict (list CpuSample) :=
  fold_left (fun out '(service, samples) =>
               match clean_samples host_cpu_cores samples with
               | [] => out
               | clean => d_set service clean out
               end) raw [].

(** [dt + timedelta(hours=1)]: wall-clock arithmetic, the date moving to
    the next day past midnight; past [MAXYEAR] raises [OverflowError]. *)
Definition add_one_hour (dt : datetime) : option datetime :=
  let sod := (hour dt * 3600 + minute dt * 60 + second dt + 3600)%Z in
  let '(y, m, d) :=
    if (sod <? 86400)%Z then (year dt, month dt, day dt)
    else next_day (year dt) (month dt) (day dt) in
  let sod' := (sod mod 86400)%Z in
  if (y <=? 9999)%Z
  then Some (mkDT y m d (sod' / 3600) ((sod' mod 3600) / 60) (sod' mod 60)
                  (microsecond dt) (tzoff dt))%Z
  else None.

(** [normalize_shelly_timestamp]
<<
    dt = datetime.fromisoformat(ts)
    dt = dt + timedelta(hours=1)
    return dt.replace(microsecond=0, tzinfo=timezone.utc).isoformat()
>>  *)
Definition normalize_shelly_timestamp (ts : string) : option string :=
  let? dt := fromisoformat (list_ascii_of_string ts) in
  let? dt' := add_one_hour dt in
  Some (string_of_list_ascii
          (isoformat (mkDT (year dt') (month dt') (day dt') (hour dt') (minute dt')
                           (second dt') 0 (Some 0%Z)))).

End Runner.

(* ------------------------------------------------------------------ *)
(** ** Readings used to state the properties of the pipeline *)

Module PipelineSpec.
Import Timestamp Attribution.
Open Scope Q_scope.

(** The record [build_timeline] writes for a CPU sample, with its key. *)
Definition cpu_key (a : Attributor) (s : CpuSample) : option (string * ServiceRecord) :=
  match c_ts s, c_cpu_cores_used s with
  | Some raw, Some c =>
      let? k := normalize_ts raw in
      let pct := match c_cpu_percent_host s with
                 | Some p => p
                 | None => (c / inject_Z (host_cpu_cores a)) * 100
                 end in
      Some (k, mkService c pct None)
  | _, _ => None
  end.

(** The record of the last CPU sample of [service] (in input order) whose
    timestamp normalizes to [k]. *)
Definition last_cpu_record (a : Attributor) (k service : string)
    (cs : dict (list CpuSample)) : option ServiceRecord :=
  fold_left (fun acc '(svc, samples) =>
               fold_left (fun acc s =>
                            match cpu_key a s with
                            | Some (k', r) =>
                                if String.eqb k k' && String.eqb service svc
                                then Some r else acc
                            | None => acc
                            end) samples acc)
            cs None.

(** The service record at [(k, service)] in a timeline. *)
Definition service_at (tl : Timeline) (k service : string) : option ServiceRecord :=
  match d_lookup k tl with
  | Some e => match services e with Some d => d_lookup service d | None => None end
  | None => None
  end.

End PipelineSpec.

(* ------------------------------------------------------------------ *)
(** ** [parse_duration] (runners/run_experiment.py) *)

Module Duration.
Import Timestamp.

(** [str.isspace] on the Latin-1 range: [\t \n \x0b \x0c \r],
    [\x1c]-[\x1f], space, [\x85] and [\xa0]. *)
Definition is_py_space (c : ascii) : bool :=
  let n := nat_of_ascii c in
  (((9 <=? n) && (n <=? 13)) || ((28 <=? n) && (n <=? 32)) || (n =? 133) || (n =? 160))%nat.

Fixpoint lstrip (l : list ascii) : list ascii :=
  match l with
  | c :: r => if is_py_space c then lstrip r else l
  | [] => []
  end.

Definition strip (l : list ascii) : list ascii := rev (lstrip (rev (lstrip l))).

(** The digits after the first one: a single underscore may separate two
    digits. *)
Fixpoint digits_loop (l : list ascii) (acc : Z) : option Z :=
  match l with
  | [] => Some acc
  | c :: r =>
      match digit c with
      | Some d => digits_loop r (acc * 10 + d)
      | None =>
          if Ascii.eqb c "_" then
            match r with
            | c' :: r' =>
                match digit c' with
                | Some d => digits_loop r' (acc * 10 + d)
                | None => None
                end
            | [] => None
            end
          else None
      end
  end.

Definition digits (l : list ascii) : option Z :=
  match l with
  | c :: r => match digit c with Some d => digits_loop r d | None => None end
  | [] => None
  end.

(** [int(s)] on a string, base 10: surrounding whitespace, an optional
    sign, then digits with single underscores between them; [None] is
    [ValueError]. *)
Definition py_int (s : string) : option Z :=
  let l := strip (list_ascii_of_string s) in
  match l with
  | c :: r =>
      if Ascii.eqb c "-" then option_map Z.opp (digits r)
      else if Ascii.eqb c "+" then digits r
      else digits l
  | [] => None
  end.

(** [parse_duration]
<<
    if rt.endswith("s"):
        return int(rt[:-1])
    if rt.endswith("m"):
        return int(rt[:-1]) * 60
    if rt.endswith("h"):
        return int(rt[:-1]) * 3600
    raise ValueError(f"Unknown duration format: {rt}")
>>  *)
Definition parse_duration (rt : string) : option Z :=
  match rev (list_ascii_of_string rt) with
  | u :: r =>
      let body := string_of_list_ascii (rev r) in
      if Ascii.eqb u "s" then py_int body
      else if Ascii.eqb u "m" then option_map (fun n => n * 60) (py_int body)
      else if Ascii.eqb u "h" then option_map (fun n => n * 3600) (py_int body)
      else None
  | [] => None
  end%Z.

End Duration.

(* ================================================================== *)
(** * Proofs *)

Module TimestampFacts.
Import Timestamp.
Open Scope Z_scope.

Ltac bool_prop :=
  repeat match goal with
  | H : (_ && _)%bool = true |- _ => apply andb_true_iff in H; destruct H
  | H : (_ <=? _) = true |- _ => apply Z.leb_le in H
  | H : (_ <? _) = true |- _ => apply Z.ltb_lt in H
  | H : (_ <=? _) = false |- _ => apply Z.leb_gt in H
  | H : (_ <? _) = false |- _ => apply Z.ltb_ge in H
  | H : (_ =? _) = true |- _ => apply Z.eqb_eq in H
  | H : (_ =? _) = false |- _ => apply Z.eqb_neq in H
  end.

Lemma days_in_month_bounds y m : 28 <= days_in_month y m <= 31.
Proof.
  unfold days_in_month.
  destruct (m =? 2); [destruct (is_leap y); lia|].
  destruct (_ || _)%bool; lia.
Qed.

Lemma digit_dig k : 0 <= k <= 9 -> digit (dig k) = Some k.
Proof.
  intros Hk.
  assert (k = 0 \/ k = 1 \/ k = 2 \/ k = 3 \/ k = 4 \/ k = 5 \/ k = 6
          \/ k = 7 \/ k = 8 \/ k = 9) as Hc by lia.
  repeat destruct Hc as [-> | Hc]; try reflexivity; subst; reflexivity.
Qed.





(** Digit characters under the byte-level parser. *)

Lemma nat_of_ascii_dig k : 0 <= k <= 9 -> nat_of_ascii (dig k) = (48 + Z.to_nat k)%nat.
Proof. intros Hk. unfold dig. apply nat_ascii_embedding. lia. Qed.

Lemma utf8_char_dig k : 0 <= k <= 9 -> utf8_char (dig k) = [dig k].
Proof.
  intros Hk. unfold utf8_char. rewrite nat_of_ascii_dig by exact Hk.
  replace ((48 + Z.to_nat k) <? 128)%nat with true; [reflexivity|].
  symmetry. apply Nat.ltb_lt. lia.
Qed.

Lemma utf8_char_ascii c : (nat_of_ascii c <? 128)%nat = true -> utf8_char c = [c].
Proof. intros Hc. unfold utf8_char. rewrite Hc. reflexivity. Qed.

Lemma dig_eqb k c : 0 <= k <= 9 -> digit c = None -> Ascii.eqb (dig k) c = false.
Proof.
  intros Hk Hc. destruct (Ascii.eqb (dig k) c) eqn:E; [|reflexivity].
  apply Ascii.eqb_eq in E. subst c. rewrite digit_dig in Hc by exact Hk. discriminate.
Qed.

Lemma is_digit_dig k : 0 <= k <= 9 -> is_digit (dig k) = true.
Proof. intros Hk. unfold is_digit. rewrite digit_dig by exact Hk. reflexivity. Qed.

Lemma is_tz_mark_dig k : 0 <= k <= 9 -> is_tz_mark (dig k) = false.
Proof. intros Hk. unfold is_tz_mark. rewrite !dig_eqb by (exact Hk || reflexivity). reflexivity. Qed.

Lemma pad2 z : pad 2 z = [dig (z / 10 mod 10); dig (z mod 10)].
Proof. reflexivity. Qed.

Lemma pad4 z : pad 4 z = [dig (z / 10 / 10 / 10 mod 10); dig (z / 10 / 10 mod 10);
                          dig (z / 10 mod 10); dig (z mod 10)].
Proof. reflexivity. Qed.

Lemma digits2 z : 0 <= z < 100 -> (z / 10) mod 10 * 10 + z mod 10 = z.
Proof.
  intros Hz.
  rewrite (Z.mod_small (z / 10))
    by (split; [apply Z.div_pos | apply Z.div_lt_upper_bound]; lia).
  pose proof (Z.div_mod z 10). lia.
Qed.

Lemma digits4 z : 0 <= z < 10000 ->
  (((z / 10 / 10 / 10) mod 10 * 10 + (z / 10 / 10) mod 10) * 10 + (z / 10) mod 10) * 10
  + z mod 10 = z.
Proof.
  intros Hz.
  assert (0 <= z / 10 / 10 / 10 < 10).
  { rewrite !Z.div_div by lia. split; [apply Z.div_pos | apply Z.div_lt_upper_bound]; lia. }
  rewrite (Z.mod_small (z / 10 / 10 / 10)) by lia.
  pose proof (Z.div_mod z 10). pose proof (Z.div_mod (z / 10) 10).
  pose proof (Z.div_mod (z / 10 / 10) 10). lia.
Qed.

Lemma isoformat_tz_utc : isoformat_tz (Some 0) = ["+"; "0"; "0"; ":"; "0"; "0"]%char.
Proof. reflexivity. Qed.

Lemma isoformat_utc_seconds y mo d h mi s :
  isoformat (mkDT y mo d h mi s 0 (Some 0)) =
  list_ascii_of_string (iso8601_utc_seconds y mo d h mi s).
Proof.
  unfold iso8601_utc_seconds. rewrite list_ascii_of_string_of_list_ascii.
  unfold isoformat. cbn [year month day hour minute second microsecond tzoff].
  rewrite isoformat_tz_utc, Z.eqb_refl, app_nil_l. reflexivity.
Qed.

Section DigitChars.

#[local] Arguments dig : simpl never.

Ltac dig_bound :=
  match goal with |- 0 <= ?e mod 10 <= 9 => pose proof (Z.mod_pos_bound e 10); lia end.

(** Symbolic evaluation of the parser on a list whose digits are
    [dig (e mod 10)]. *)
Ltac dig_rw :=
  repeat first
    [ rewrite digit_dig by dig_bound
    | rewrite utf8_char_dig by dig_bound
    | rewrite is_digit_dig by dig_bound
    | rewrite is_tz_mark_dig by dig_bound
    | rewrite dig_eqb by (dig_bound || reflexivity)
    | progress change (digit "0"%char) with (Some 0) ]; cbn.

Lemma fromisoformat_utc_seconds y mo d h mi s :
  valid_date y mo d = true -> valid_time h mi s 0 = true ->
  fromisoformat (list_ascii_of_string (iso8601_utc_seconds y mo d h mi s)) =
  Some (mkDT y mo d h mi s 0 (Some 0)).
Proof.
  intros Hd Ht.
  pose proof (days_in_month_bounds y mo).
  assert (Hd' := Hd); assert (Ht' := Ht).
  unfold valid_date, valid_time in Hd', Ht'. bool_prop.
  unfold iso8601_utc_seconds. rewrite list_ascii_of_string_of_list_ascii.
  rewrite pad4, !pad2. unfold fromisoformat, utf8. cbn [app]. cbn [flat_map app].
  rewrite !utf8_char_dig by dig_bound. rewrite !utf8_char_ascii by reflexivity. cbn.
  dig_rw.
  unfold parse_isoformat_date, parse_isoformat_time, parse_hh_mm_ss_ff. cbn.
  dig_rw. dig_rw.
  rewrite digits4, !digits2 by lia. rewrite Hd, Ht. reflexivity.
Qed.

End DigitChars.

Lemma days_in_month_12 y : days_in_month y 12 = 31.
Proof. reflexivity. Qed.

Ltac valid_goal :=
  unfold valid_date, valid_time; rewrite ?andb_true_iff, ?Z.leb_le.

Lemma next_day_valid y m d y' m' d' :
  valid_date y m d = true -> next_day y m d = (y', m', d') ->
  1 <= y' <= 9999 -> valid_date y' m' d' = true.
Proof.
  intros Hv Hn Hy. pose proof (days_in_month_bounds y (m + 1)).
  unfold valid_date in Hv; bool_prop. unfold next_day in Hn.
  destruct (d <? days_in_month y m) eqn:E1; bool_prop.
  - injection Hn as <- <- <-. valid_goal. lia.
  - destruct (m <? 12) eqn:E2; bool_prop.
    + injection Hn as <- <- <-. valid_goal. lia.
    + injection Hn as <- <- <-. valid_goal. pose proof (days_in_month_bounds (y + 1) 1). lia.
Qed.

Lemma prev_day_valid y m d y' m' d' :
  valid_date y m d = true -> prev_day y m d = (y', m', d') ->
  1 <= y' <= 9999 -> valid_date y' m' d' = true.
Proof.
  intros Hv Hn Hy. pose proof (days_in_month_bounds y (m - 1)).
  unfold valid_date in Hv; bool_prop. unfold prev_day in Hn.
  destruct (1 <? d) eqn:E1; bool_prop.
  - injection Hn as <- <- <-. valid_goal. lia.
  - destruct (1 <? m) eqn:E2; bool_prop.
    + injection Hn as <- <- <-. valid_goal. lia.
    + injection Hn as <- <- <-. valid_goal. rewrite days_in_month_12. lia.
Qed.

Lemma tzinfo_bound tz off :
  tzinfo_from_isoformat_results tz = Some (Some off) -> Z.abs off < 86400000000.
Proof.
  unfold tzinfo_from_isoformat_results. intros H.
  destruct tz as [[tzoffset tzusec]|]; [|discriminate].
  destruct (tzoffset =? 0); [injection H as <-; reflexivity|].
  destruct (_ && _)%bool eqn:E; [|discriminate].
  injection H as <-. bool_prop. lia.
Qed.

Lemma fromisoformat_valid l dt :
  fromisoformat l = Some dt ->
  valid_date (year dt) (month dt) (day dt) = true /\
  valid_time (hour dt) (minute dt) (second dt) (microsecond dt) = true /\
  (forall off, tzoff dt = Some off -> Z.abs off < 86400000000).
Proof.
  unfold fromisoformat. intros H.
  repeat match type of H with
  | context [match ?x with Some _ => _ | None => None end] =>
      let E := fresh "E" in destruct x eqn:E; [|discriminate]
  | context [match ?p with (_, _) => _ end] => destruct p
  | context [if ?b then None else _] => destruct b; [discriminate|]
  | context [if ?b then _ else None] =>
      let E := fresh "Hv" in destruct b eqn:E; [|discriminate]
  | context [if ?b then _ else _] => destruct b
  end;
  injection H as <-; apply andb_true_iff in Hv as [Hv1 Hv2]; cbn;
  (split; [exact Hv1|]); (split; [exact Hv2|]);
  intros off ->. eapply tzinfo_bound; eassumption.
Qed.

Lemma to_utc_valid dt u :
  valid_date (year dt) (month dt) (day dt) = true ->
  valid_time (hour dt) (minute dt) (second dt) (microsecond dt) = true ->
  (forall off, tzoff dt = Some off -> Z.abs off < 86400000000) ->
  to_utc dt = Some u ->
  valid_date (year u) (month u) (day u) = true /\
  valid_time (hour u) (minute u) (second u) (microsecond u) = true /\
  tzoff u = Some 0.
Proof.
  intros Hd Ht Hoff H. unfold to_utc in H.
  destruct (tzoff dt) as [off|] eqn:Etz.
  2:{ injection H as <-. cbn. auto. }
  specialize (Hoff off eq_refl).
  assert (Ht' := Ht). unfold valid_time in Ht'. bool_prop.
  unfold astimezone_utc in H.
  set (t := (hour dt * 3600 + minute dt * 60 + second dt) * 1000000
            + microsecond dt - off) in H.
  assert (Hs : -86400000000 < t < 2 * 86400000000) by (unfold t; lia).
  match type of H with
  | context [match ?t with (_, _) => _ end] =>
      match t with (_, _, _) => fail 1 | _ => destruct t as [[y m] d] eqn:Ed end
  end.
  destruct ((1 <=? y) && (y <=? 9999))%bool eqn:Ey; [|discriminate].
  injection H as <-. bool_prop. cbn [year month day hour minute second microsecond tzoff].
  split; [|split; [|reflexivity]].
  - destruct (t / 86400000000 =? 0) eqn:E0.
    { injection Ed as <- <- <-. exact Hd. }
    destruct (0 <? t / 86400000000).
    + eapply next_day_valid; [exact Hd | exact Ed | lia].
    + eapply prev_day_valid; [exact Hd | exact Ed | lia].
  - pose proof (Z.mod_pos_bound t 86400000000) as Hx.
    clear Ed. clearbody t. set (x := t mod 86400000000) in *.
    assert (0 <= x < 86400000000) by lia. clearbody x.
    assert (Hsec : 0 <= x / 1000000 < 86400).
    { split; [apply Z.div_pos; lia | apply Z.div_lt_upper_bound; lia]. }
    pose proof (Z.mod_pos_bound x 1000000).
    set (sec := x / 1000000) in *. clearbody sec.
    pose proof (Z.mod_pos_bound sec 3600).
    pose proof (Z.mod_pos_bound sec 60).
    pose proof (Z.mod_pos_bound (sec mod 3600) 60) as Hm.
    assert (0 <= sec / 3600 <= 23).
    { split; [apply Z.div_pos; lia | apply Z.lt_succ_r, Z.div_lt_upper_bound; lia]. }
    assert (0 <= sec mod 3600 / 60 <= 59).
    { split; [apply Z.div_pos; lia | apply Z.lt_succ_r, Z.div_lt_upper_bound; lia]. }
    valid_goal. lia.
Qed.

Lemma hms_decompose h mi s :
  0 <= h <= 23 -> 0 <= mi <= 59 -> 0 <= s <= 59 ->
  (h * 3600 + mi * 60 + s) / 3600 = h /\
  ((h * 3600 + mi * 60 + s) mod 3600) / 60 = mi /\
  (h * 3600 + mi * 60 + s) mod 60 = s.
Proof.
  intros Hh Hm Hs.
  rewrite <- (Z.mod_unique_pos (h * 3600 + mi * 60 + s) 3600 h (mi * 60 + s))
    by lia.
  split; [symmetry; apply (Z.div_unique_pos _ _ _ (mi * 60 + s)); lia|].
  split; [symmetry; apply (Z.div_unique_pos _ _ _ s); lia|].
  symmetry; apply (Z.mod_unique_pos _ _ (h * 60 + mi)); lia.
Qed.

Lemma astimezone_utc_zero y m d h mi s us tz :
  valid_date y m d = true -> valid_time h mi s us = true ->
  astimezone_utc (mkDT y m d h mi s us tz) 0 = Some (mkDT y m d h mi s us (Some 0)).
Proof.
  intros Hd Ht. assert (Hd' := Hd); assert (Ht' := Ht).
  unfold valid_date in Hd'; unfold valid_time in Ht'. bool_prop.
  unfold astimezone_utc. cbn [year month day hour minute second microsecond].
  rewrite Z.sub_0_r.
  set (x := h * 3600 + mi * 60 + s).
  assert (Hx : 0 <= x < 86400) by (unfold x; lia).
  rewrite (Z.div_small (x * 1000000 + us)) by lia.
  rewrite (Z.mod_small (x * 1000000 + us)) by lia.
  rewrite Z.eqb_refl.
  replace ((1 <=? y) && (y <=? 9999))%bool with true
    by (symmetry; apply andb_true_iff; split; apply Z.leb_le; lia).
  rewrite <- (Z.div_unique_pos (x * 1000000 + us) 1000000 x us) by lia.
  rewrite <- (Z.mod_unique_pos (x * 1000000 + us) 1000000 x us) by lia.
  destruct (hms_decompose h mi s) as (E1 & E2 & E3); try lia.
  unfold x. rewrite E1, E2, E3. reflexivity.
Qed.

(** Inputs of the forms Python 3.11 accepts beyond the extended calendar
    date: ISO week dates and the basic format, [+HHMM] and [-HH]
    offsets, offsets with a fraction, a comma as decimal mark, a fraction
    of the minute, more than six fraction digits (truncated); and inputs
    it refuses: week 53 of a year without one, text after [Z], an offset
    of a whole day. *)
Lemma fromisoformat_examples :
  fromisoformat (list_ascii_of_string "2024W011T1230+0100")
    = Some (mkDT 2024 1 1 12 30 0 0 (Some 3600000000)) /\
  fromisoformat (list_ascii_of_string "2024-W01-1T12:30")
    = Some (mkDT 2024 1 1 12 30 0 0 None) /\
  fromisoformat (list_ascii_of_string "20240101T123000,5-05")
    = Some (mkDT 2024 1 1 12 30 0 500000 (Some (-18000000000))) /\
  fromisoformat (list_ascii_of_string "2024-01-01T12:30:00.1234567")
    = Some (mkDT 2024 1 1 12 30 0 123456 None) /\
  fromisoformat (list_ascii_of_string "2024-01-01T12:30.5")
    = Some (mkDT 2024 1 1 12 30 0 500000 None) /\
  fromisoformat (list_ascii_of_string "2024-01-01T12:30:00+01:00:00.5")
    = Some (mkDT 2024 1 1 12 30 0 0 (Some 3600500000)) /\
  fromisoformat (list_ascii_of_string "2020-W53-7")
    = Some (mkDT 2021 1 3 0 0 0 0 None) /\
  fromisoformat (list_ascii_of_string "2021-W53") = None /\
  fromisoformat (list_ascii_of_string "2024-01-01T12:30:00Zx") = None /\
  fromisoformat (list_ascii_of_string "2024-01-01T12:30:00+24:00") = None.
Proof. repeat split; vm_compute; reflexivity. Qed.

(** C6: on every input where [normalize_ts] succeeds, its result is an
    ISO-8601 UTC timestamp at whole-second resolution with the explicit
    offset [+00:00], and normalizing it again returns it unchanged. *)
Theorem normalize_ts_canonical_idempotent (x y : string) :
  normalize_ts x = Some y ->
  (exists yr mo d h mi s,
      valid_date yr mo d = true /\ valid_time h mi s 0 = true /\
      y = iso8601_utc_seconds yr mo d h mi s) /\
  normalize_ts y = Some y.
Proof.
  unfold normalize_ts at 1. intros H.
  destruct (fromisoformat (list_ascii_of_string x)) as [dt|] eqn:E1; [|discriminate].
  destruct (to_utc dt) as [u|] eqn:E2; [|discriminate].
  assert (Hy : string_of_list_ascii (isoformat (drop_microsecond u)) = y)
    by congruence.
  subst y. clear H.
  destruct (fromisoformat_valid _ _ E1) as (Hd & Ht & Hoff).
  destruct (to_utc_valid dt u Hd Ht Hoff E2) as (Hud & Hut & Hutz).
  assert (Hut0 : valid_time (hour u) (minute u) (second u) 0 = true).
  { unfold valid_time in *. bool_prop. valid_goal. lia. }
  assert (Hiso : string_of_list_ascii (isoformat (drop_microsecond u)) =
                 iso8601_utc_seconds (year u) (month u) (day u)
                                     (hour u) (minute u) (second u)).
  { unfold drop_microsecond. rewrite Hutz, isoformat_utc_seconds.
    apply string_of_list_ascii_of_string. }
  rewrite Hiso. split.
  - do 6 eexists. split; [exact Hud|]. split; [exact Hut0|reflexivity].
  - unfold normalize_ts. rewrite fromisoformat_utc_seconds by assumption.
    unfold to_utc; cbn [tzoff]. rewrite astimezone_utc_zero by assumption.
    unfold drop_microsecond; cbn [year month day hour minute second microsecond tzoff].
    rewrite isoformat_utc_seconds, string_of_list_ascii_of_string. reflexivity.
Qed.

(** A timestamp one hour ahead of UTC, just after midnight: normalizing
    moves it to the previous day, and the result is a fixed point. *)
Lemma normalize_ts_canonical_idempotent_witness :
  normalize_ts "2024-01-01T00:30:00.250+01:00"%string
    = Some "2023-12-31T23:30:00+00:00"%string /\
  normalize_ts "2023-12-31T23:30:00+00:00"%string
    = Some "2023-12-31T23:30:00+00:00"%string.
Proof.
  assert (H : normalize_ts "2024-01-01T00:30:00.250+01:00"%string
              = Some "2023-12-31T23:30:00+00:00"%string) by (vm_compute; reflexivity).
  split; [exact H|].
  exact (proj2 (normalize_ts_canonical_idempotent _ _ H)).
Defined.

End TimestampFacts.

Module ResolverFacts.
Import Resolver.

Section Candidates.

Context {S : Type}.
Variable range : string -> string -> string -> string -> call_outcome S.
Variables start end_ step : string.

Lemma first_non_empty_skip q qs :
  skipped_candidate (range q start end_ step) = true ->
  first_non_empty range (q :: qs) start end_ step =
  (fst (first_non_empty range qs start end_ step),
   q :: snd (first_non_empty range qs start end_ step)).
Proof.
  intros Hq. cbn [first_non_empty].
  destruct (range q start end_ step) as [e|[[|x xs]|]]; try discriminate;
    destruct (first_non_empty range qs start end_ step); reflexivity.
Qed.

Lemma first_non_empty_skip_prefix pre qs :
  Forall (fun q => skipped_candidate (range q start end_ step) = true) pre ->
  first_non_empty range (pre ++ qs) start end_ step =
  (fst (first_non_empty range qs start end_ step),
   pre ++ snd (first_non_empty range qs start end_ step)).
Proof.
  induction 1 as [|q pre Hq _ IH]; cbn [app].
  - destruct (first_non_empty range qs start end_ step); reflexivity.
  - rewrite first_non_empty_skip by exact Hq. rewrite IH. reflexivity.
Qed.

Lemma returned_not_nonempty_skipped q :
  (exists v, range q start end_ step = Returned v) ->
  nonempty_list (range q start end_ step) = false ->
  skipped_candidate (range q start end_ step) = true.
Proof.
  intros [v Hv] Hn. rewrite Hv in *. destruct v as [[|x xs]|]; easy.
Qed.

(** C8: when no candidate raises, the resolver returns the series of the
    first candidate (in list order) that yields a non-empty series,
    skipping the empty ones before it; when every candidate yields an
    empty series it returns the empty series. *)
Theorem first_non_empty_returns_first_success (qs : list string) :
  (forall q, In q qs -> exists v, range q start end_ step = Returned v) ->
  (forall pre q rest l,
      qs = pre ++ q :: rest ->
      Forall (fun q' => nonempty_list (range q' start end_ step) = false) pre ->
      range q start end_ step = Returned (JList l) -> l <> [] ->
      fst (first_non_empty range qs start end_ step) = Ret (JList l)) /\
  (Forall (fun q => nonempty_list (range q start end_ step) = false) qs ->
   fst (first_non_empty range qs start end_ step) = Ret (JList [])).
Proof.
  intros Hret. split.
  - intros pre q rest l -> Hpre Hq Hl.
    rewrite first_non_empty_skip_prefix.
    + cbn [fst first_non_empty]. rewrite Hq.
      destruct l as [|x xs]; [contradiction|reflexivity].
    + rewrite Forall_forall in *. intros q' Hin.
      apply returned_not_nonempty_skipped; [|now apply Hpre].
      apply Hret, in_or_app; now left.
  - intros Hall. rewrite <- (app_nil_r qs).
    rewrite first_non_empty_skip_prefix; [reflexivity|].
    rewrite Forall_forall in *. intros q Hin.
    apply returned_not_nonempty_skipped; [now apply Hret | now apply Hall].
Qed.

(** C3 (as the code behaves): a candidate that raises ends the
    resolution; the error escapes to the caller and no later candidate
    is sent to the backend. *)
Theorem first_non_empty_raise_propagates pre q rest (e : string) :
  Forall (fun q' => skipped_candidate (range q' start end_ step) = true) pre ->
  range q start end_ step = Raised e ->
  first_non_empty range (pre ++ q :: rest) start end_ step = (Exc e, pre ++ [q]).
Proof.
  intros Hpre Hq. rewrite first_non_empty_skip_prefix by exact Hpre.
  cbn [first_non_empty fst snd]. rewrite Hq. reflexivity.
Qed.

End Candidates.

(** C3: the first candidate times out; the error escapes instead of the
    resolver moving on to the second candidate, whose series is
    non-empty, and the second query is never sent. *)
Lemma first_non_empty_raising_candidate_aborts :
  first_non_empty
    (fun q _ _ _ => if String.eqb q "q1"%string then Raised "timeout"%string
                    else Returned (JList [tt]))
    ["q1"; "q2"]%string "start"%string "end"%string "5s"%string
  = (Exc "timeout"%string, ["q1"]%string).
Proof. reflexivity. Qed.

(** Three candidates: an empty series, a scalar result and a non-empty
    series; the third is returned. Without the third, the result is the
    empty series. *)
Lemma first_non_empty_returns_first_success_witness :
  let R : string -> string -> string -> string -> call_outcome unit :=
    fun q _ _ _ =>
      if String.eqb q "empty"%string then Returned (JList [])
      else if String.eqb q "scalar"%string then Returned JOther
      else Returned (JList [tt]) in
  (forall q, In q ["empty"; "scalar"; "series"]%string ->
             exists v, R q "s"%string "e"%string "5s"%string = Returned v) /\
  fst (first_non_empty R ["empty"; "scalar"; "series"]%string
                         "s"%string "e"%string "5s"%string) = Ret (JList [tt]) /\
  (forall q, In q ["empty"; "scalar"]%string ->
             exists v, R q "s"%string "e"%string "5s"%string = Returned v) /\
  fst (first_non_empty R ["empty"; "scalar"]%string
                         "s"%string "e"%string "5s"%string) = Ret (JList []).
Proof.
  intros R.
  assert (H3 : forall q, In q ["empty"; "scalar"; "series"]%string ->
                 exists v, R q "s"%string "e"%string "5s"%string = Returned v).
  { intros q Hq. destruct Hq as [<-|[<-|[<-|[]]]]; eexists; reflexivity. }
  assert (H2 : forall q, In q ["empty"; "scalar"]%string ->
                 exists v, R q "s"%string "e"%string "5s"%string = Returned v).
  { intros q Hq. destruct Hq as [<-|[<-|[]]]; eexists; reflexivity. }
  split; [exact H3|]. split.
  - apply (proj1 (first_non_empty_returns_first_success R _ _ _ _ H3)
             ["empty"; "scalar"]%string "series"%string [] [tt]).
    + reflexivity.
    + repeat constructor.
    + reflexivity.
    + discriminate.
  - split; [exact H2|].
    apply (proj2 (first_non_empty_returns_first_success R _ _ _ _ H2)).
    repeat constructor.
Defined.

(** A skipped empty candidate, then a timeout: the timeout reaches the
    caller and the third query is never sent. *)
Lemma first_non_empty_raise_propagates_witness :
  let R : string -> string -> string -> string -> call_outcome unit :=
    fun q _ _ _ =>
      if String.eqb q "q0"%string then Returned (JList [])
      else if String.eqb q "q1"%string then Raised "timeout"%string
      else Returned (JList [tt]) in
  Forall (fun q' => skipped_candidate (R q' "s"%string "e"%string "5s"%string) = true)
         ["q0"%string] /\
  R "q1"%string "s"%string "e"%string "5s"%string = Raised "timeout"%string /\
  first_non_empty R ["q0"; "q1"; "q2"]%string "s"%string "e"%string "5s"%string
    = (Exc "timeout"%string, ["q0"; "q1"]%string).
Proof.
  intros R.
  assert (H1 : Forall (fun q' => skipped_candidate (R q' "s"%string "e"%string "5s"%string) = true)
                      ["q0"%string]) by (repeat constructor).
  assert (H2 : R "q1"%string "s"%string "e"%string "5s"%string = Raised "timeout"%string)
    by reflexivity.
  split; [exact H1|]. split; [exact H2|].
  exact (first_non_empty_raise_propagates R _ _ _ ["q0"%string] "q1"%string ["q2"%string] _ H1 H2).
Defined.

End ResolverFacts.

Module AttributeFacts.
Import Timestamp Attribution.
Open Scope Q_scope.

Lemma Qltb_spec x y : Qltb x y = true <-> x < y.
Proof.
  unfold Qltb. rewrite negb_true_iff. split.
  - intros H. apply Qnot_le_lt. intros Hle. apply Qle_bool_iff in Hle. congruence.
  - intros H. destruct (Qle_bool y x) eqn:E; [|reflexivity].
    apply Qle_bool_iff in E. apply Qlt_not_le in H. contradiction.
Qed.

Lemma Qltb_false x y : Qltb x y = false -> y <= x.
Proof.
  unfold Qltb. rewrite negb_false_iff. apply Qle_bool_iff.
Qed.

(** Sums written as [fold_left] with an accumulator. *)
Lemma fold_sum_acc (h : ServiceRecord -> Q) (l : dict ServiceRecord) (acc : Q) :
  fold_left (fun acc '(_, s) => acc + h s) l acc ==
  acc + fold_left (fun acc '(_, s) => acc + h s) l 0.
Proof.
  revert acc; induction l as [|[n s] l IH]; intros acc; simpl.
  - ring.
  - rewrite (IH (acc + h s)), (IH (0 + h s)). ring.
Qed.

Lemma fold_sum_scale (h : ServiceRecord -> Q) (k : Q) (l : dict ServiceRecord) :
  fold_left (fun acc '(_, s) => acc + h s * k) l 0 ==
  fold_left (fun acc '(_, s) => acc + h s) l 0 * k.
Proof.
  induction l as [|[n s] l IH]; simpl.
  - ring.
  - rewrite fold_sum_acc, (fold_sum_acc h). rewrite IH. ring.
Qed.

Lemma cpu_total_of_set_estimates (g : ServiceRecord -> Q) (l : dict ServiceRecord) :
  cpu_total_of (map (fun '(n, s) => (n, set_estimate (g s) s)) l) = cpu_total_of l.
Proof.
  unfold cpu_total_of. generalize 0.
  induction l as [|[n s] l IH]; intros acc; simpl; [reflexivity|apply IH].
Qed.

Lemma sum_estimates_set (g : ServiceRecord -> Q) (l : dict ServiceRecord) :
  sum_estimates (map (fun '(n, s) => (n, set_estimate (g s) s)) l) =
  Some (fold_left (fun acc '(_, s) => acc + g s) l 0).
Proof.
  unfold sum_estimates. generalize 0.
  induction l as [|[n s] l IH]; intros acc; simpl; [reflexivity|apply IH].
Qed.

Lemma share_loop_spec total power svcs svcs' :
  share_loop total power svcs = Some svcs' ->
  svcs' = map (fun '(n, s) => (n, set_estimate (cpu_cores_used s / total * power) s)) svcs
  /\ (svcs <> [] -> Qeq_bool total 0 = false).
Proof.
  revert svcs'; induction svcs as [|[n s] l IH]; intros svcs' H; simpl in H.
  - injection H as <-. split; [reflexivity|congruence].
  - destruct (Qeq_bool total 0) eqn:Ez; [discriminate|].
    destruct (share_loop total power l) as [l'|] eqn:El; [|discriminate].
    injection H as <-. destruct (IH l' eq_refl) as [-> _].
    split; [reflexivity|auto].
Qed.

(** The per-instant property of claim C1. *)
Lemma attribute_entry_conserves eps data data' :
  a_services data <> [] ->
  attribute_entry eps data = Some data' ->
  a_shelly data' = a_shelly data /\
  (eps <= cpu_total_of (a_services data') ->
   exists x, sum_estimates (a_services data') = Some x /\ x == power_w (a_shelly data')) /\
  (cpu_total_of (a_services data') < eps ->
   Forall (fun '(_, s) => estimated_power_from_shelly_watt s = Some 0) (a_services data')).
Proof.
  intros Hne H. unfold attribute_entry in H.
  destruct (Qltb (cpu_total_of (a_services data)) eps) eqn:Elt.
  - injection H as <-. cbn [a_services a_shelly].
    apply Qltb_spec in Elt.
    rewrite (cpu_total_of_set_estimates (fun _ => 0)).
    split; [reflexivity|]. split.
    + intros Hle. exfalso. apply (Qlt_not_le _ _ Elt Hle).
    + intros _. apply Forall_forall. intros [n s] Hin.
      apply in_map_iff in Hin as [[n0 s0] [Heq _]]. injection Heq as <- <-. reflexivity.
  - apply Qltb_false in Elt.
    destruct (share_loop _ _ _) as [svcs'|] eqn:Es; [|discriminate].
    injection H as <-. cbn [a_services a_shelly].
    destruct (share_loop_spec _ _ _ _ Es) as [-> Hz]. specialize (Hz Hne).
    rewrite cpu_total_of_set_estimates. split; [reflexivity|]. split.
    + intros _. rewrite sum_estimates_set. eexists. split; [reflexivity|].
      set (T := cpu_total_of (a_services data)).
      assert (HT : ~ T == 0).
      { intros E. apply Qeq_bool_iff in E. unfold T in E. congruence. }
      rewrite (fold_sum_scale (fun s => cpu_cores_used s / T) (power_w (a_shelly data))).
      setoid_replace (fold_left (fun acc '(_, s) => acc + cpu_cores_used s / T)
                                (a_services data) 0)
        with (T / T).
      * field. exact HT.
      * unfold T, cpu_total_of. unfold Qdiv.
        rewrite (fold_sum_scale cpu_cores_used (/ _)). reflexivity.
    + intros Hlt. exfalso. apply (Qlt_not_le _ _ Hlt Elt).
Qed.

Lemma attribute_loop_entries eps al out :
  attribute_loop eps al = Some out ->
  Forall2 (fun '(t, d) '(t', d') => t' = t /\ attribute_entry eps d = Some d') al out.
Proof.
  revert out; induction al as [|[t d] al IH]; intros out H; simpl in H.
  - injection H as <-. constructor.
  - destruct (attribute_entry eps d) as [d'|] eqn:Ed; [|discriminate].
    destruct (attribute_loop eps al) as [out'|] eqn:Eo; [|discriminate].
    injection H as <-. constructor; [split; auto | apply IH; reflexivity].
Qed.

(** C1: after [attribute], at every instant whose services are non-empty
    (every aligned instant has at least one service reading): when the
    services' total [cpu_cores_used] is at least [cpu_epsilon_cores], the
    estimates sum to the instant's [power_w]; when it is below, every
    estimate is 0.  Arithmetic is exact over [Q]. *)
Theorem attribute_conserves_power (a : Attributor) (al out : AlignedTimeline) :
  Forall (fun '(_, data) => a_services data <> []) al ->
  attribute a al = Some out ->
  Forall (fun '(_, data) =>
     (cpu_epsilon_cores a <= cpu_total_of (a_services data) ->
      exists x, sum_estimates (a_services data) = Some x /\
                x == power_w (a_shelly data)) /\
     (cpu_total_of (a_services data) < cpu_epsilon_cores a ->
      Forall (fun '(_, s) => estimated_power_from_shelly_watt s = Some 0)
             (a_services data)))
    out.
Proof.
  intros Hne H. unfold attribute in H.
  apply attribute_loop_entries in H.
  induction H as [|[t d] [t' d'] al out [_ Hd] _ IH]; constructor.
  - inversion Hne as [|? ? Hne1 _]; subst.
    destruct (attribute_entry_conserves _ _ _ Hne1 Hd) as (_ & H1 & H2). auto.
  - apply IH. inversion Hne; assumption.
Qed.

Lemma set_estimates_related (g : ServiceRecord -> Q) (l : dict ServiceRecord) :
  Forall2 (fun '(n, s) '(n', s') => n' = n /\ exists v, s' = set_estimate v s)
          l (map (fun '(n, s) => (n, set_estimate (g s) s)) l).
Proof.
  induction l as [|[n s] l IH]; constructor; [split; eauto | exact IH].
Qed.

Lemma attribute_entry_frame eps data data' :
  attribute_entry eps data = Some data' ->
  a_shelly data' = a_shelly data /\
  Forall2 (fun '(n, s) '(n', s') => n' = n /\ exists v, s' = set_estimate v s)
          (a_services data) (a_services data').
Proof.
  intros H. unfold attribute_entry in H.
  destruct (Qltb _ _).
  - injection H as <-. split; [reflexivity|]. apply (set_estimates_related (fun _ => 0)).
  - destruct (share_loop _ _ _) as [svcs'|] eqn:Es; [|discriminate].
    injection H as <-. split; [reflexivity|].
    destruct (share_loop_spec _ _ _ _ Es) as [-> _]. apply set_estimates_related.
Qed.

(** C10: [attribute] keeps the instants (same timestamps, same order),
    each instant's power reading, each instant's service names, and each
    service's [cpu_cores_used] and [cpu_percent_host]; the only change to
    a service record is that [estimated_power_from_shelly_watt] is set. *)
Theorem attribute_frame (a : Attributor) (al out : AlignedTimeline) :
  attribute a al = Some out ->
  Forall2 (fun '(t, d) '(t', d') =>
             t' = t /\ a_shelly d' = a_shelly d /\
             Forall2 (fun '(n, s) '(n', s') =>
                        n' = n /\ exists v, s' = set_estimate v s)
                     (a_services d) (a_services d'))
          al out.
Proof.
  intros H. unfold attribute in H. apply attribute_loop_entries in H.
  induction H as [|[t d] [t' d'] al out [Ht Hd] _ IH]; constructor; [|exact IH].
  destruct (attribute_entry_frame _ _ _ Hd). auto.
Qed.

(** Two instants: one where 100 W are shared by 1 and 3 busy cores, one
    where the only service is idle. *)
Lemma attribute_conserves_power_witness :
  let a := mkAttributor 4 5 (1 # 100) in
  let al : AlignedTimeline :=
    [("2024-01-01T00:00:00+00:00"%string,
              mkAligned (mkShelly 100 None)
                [("A"%string, mkService 1 25 None); ("B"%string, mkService 3 75 None)]);
             ("2024-01-01T00:00:05+00:00"%string,
              mkAligned (mkShelly 40 (Some 230))
                [("A"%string, mkService 0 0 None)])] in
  Forall (fun '(_, data) => a_services data <> []) al /\
  match attribute a al with
  | Some out =>
      Forall (fun '(_, data) =>
         (cpu_epsilon_cores a <= cpu_total_of (a_services data) ->
          exists x, sum_estimates (a_services data) = Some x /\
                    x == power_w (a_shelly data)) /\
         (cpu_total_of (a_services data) < cpu_epsilon_cores a ->
          Forall (fun '(_, s) => estimated_power_from_shelly_watt s = Some 0)
                 (a_services data)))
        out
  | None => False
  end.
Proof.
  intros a al.
  assert (Hne : Forall (fun '(_, data) => a_services data <> []) al)
    by (repeat (apply Forall_cons; [cbn; discriminate|]); apply Forall_nil).
  split; [exact Hne|].
  destruct (attribute a al) as [out|] eqn:E.
  - exact (attribute_conserves_power a al out Hne E).
  - vm_compute in E. discriminate.
Defined.

(** The same two instants: the output has the same instants, readings,
    services and CPU figures, each record carrying an estimate. *)
Lemma attribute_frame_witness :
  let a := mkAttributor 4 5 (1 # 100) in
  let al : AlignedTimeline :=
    [("2024-01-01T00:00:00+00:00"%string,
              mkAligned (mkShelly 100 None)
                [("A"%string, mkService 1 25 None); ("B"%string, mkService 3 75 None)]);
             ("2024-01-01T00:00:05+00:00"%string,
              mkAligned (mkShelly 40 (Some 230))
                [("A"%string, mkService 0 0 None)])] in
  match attribute a al with
  | Some out =>
      Forall2 (fun '(t, d) '(t', d') =>
                 t' = t /\ a_shelly d' = a_shelly d /\
                 Forall2 (fun '(n, s) '(n', s') =>
                            n' = n /\ exists v, s' = set_estimate v s)
                         (a_services d) (a_services d'))
              al out
  | None => False
  end.
Proof.
  intros a al.
  destruct (attribute a al) as [out|] eqn:E.
  - exact (attribute_frame a al out E).
  - vm_compute in E. discriminate.
Defined.

End AttributeFacts.

Module BuildFacts.
Import Timestamp Attribution.

Lemma d_lookup_set {A} (k k' : string) (v : A) (d : dict A) :
  d_lookup k (d_set k' v d) = if String.eqb k k' then Some v else d_lookup k d.
Proof.
  induction d as [|[k0 v0] d IH]; simpl.
  - reflexivity.
  - destruct (String.eqb k' k0) eqn:E1; simpl.
    + apply String.eqb_eq in E1; subst k0. destruct (String.eqb k k'); reflexivity.
    + rewrite IH. destruct (String.eqb k k0) eqn:E2; [|reflexivity].
      apply String.eqb_eq in E2; subst k0.
      destruct (String.eqb k k') eqn:E3; [|reflexivity].
      apply String.eqb_eq in E3; subst k'. rewrite String.eqb_refl in E1. discriminate.
Qed.

Lemma fold_opt_app {A B} (f : A -> B -> option A) l1 l2 acc :
  fold_opt f (l1 ++ l2) acc = (let? acc' := fold_opt f l1 acc in fold_opt f l2 acc').
Proof.
  revert acc; induction l1 as [|x l1 IH]; intros acc; simpl; [reflexivity|].
  destruct (f acc x); [apply IH|reflexivity].
Qed.

Lemma add_power_at tl s tl' k :
  add_power tl s = Some tl' ->
  shelly (entry_at k tl') =
  match power_key s with
  | Some (k', r) => if String.eqb k k' then Some r else shelly (entry_at k tl)
  | None => shelly (entry_at k tl)
  end.
Proof.
  unfold add_power, power_key.
  destruct (p_ts s) as [raw|]; [|intros H; injection H as <-; reflexivity].
  destruct (p_power_w s) as [pw|]; [|intros H; injection H as <-; reflexivity].
  destruct (normalize_ts raw) as [ts|]; [|discriminate].
  intros H; injection H as <-. unfold entry_at at 1. rewrite d_lookup_set.
  destruct (String.eqb k ts); reflexivity.
Qed.

Lemma power_loop_at ps : forall tl tl' k,
  fold_opt add_power ps tl = Some tl' ->
  shelly (entry_at k tl') =
  fold_left (fun acc s =>
               match power_key s with
               | Some (k', r) => if String.eqb k k' then Some r else acc
               | None => acc
               end) ps (shelly (entry_at k tl)).
Proof.
  induction ps as [|s ps IH]; intros tl tl' k H; simpl in H.
  - injection H as <-. reflexivity.
  - destruct (add_power tl s) as [tl1|] eqn:E; [|discriminate].
    simpl. rewrite (IH tl1 tl' k H). f_equal. apply add_power_at. exact E.
Qed.

Lemma add_cpu_keeps_power a svc tl s tl' k :
  add_cpu a svc tl s = Some tl' -> shelly (entry_at k tl') = shelly (entry_at k tl).
Proof.
  unfold add_cpu.
  destruct (c_ts s) as [raw|]; [|intros H; injection H as <-; reflexivity].
  destruct (c_cpu_cores_used s) as [c|]; [|intros H; injection H as <-; reflexivity].
  destruct (normalize_ts raw) as [ts|]; [|discriminate].
  destruct (host_cpu_cores a =? 0)%Z; [discriminate|].
  intros H; injection H as <-. unfold entry_at at 1. rewrite d_lookup_set.
  destruct (String.eqb k ts) eqn:E; [|reflexivity].
  apply String.eqb_eq in E; subst. reflexivity.
Qed.

Lemma cpu_loop_keeps_power a cs : forall tl tl' k,
  fold_opt (fun tl '(service, samples) => fold_opt (add_cpu a service) samples tl)
           cs tl = Some tl' ->
  shelly (entry_at k tl') = shelly (entry_at k tl).
Proof.
  assert (Hin : forall svc ss tl tl' k,
             fold_opt (add_cpu a svc) ss tl = Some tl' -> shelly (entry_at k tl') = shelly (entry_at k tl)).
  { intros svc; induction ss as [|s ss IH]; intros tl tl' k H; simpl in H.
    - injection H as <-. reflexivity.
    - destruct (add_cpu a svc tl s) as [tl1|] eqn:E; [|discriminate].
      rewrite (IH _ _ _ H). eapply add_cpu_keeps_power; exact E. }
  induction cs as [|[svc ss] cs IH]; intros tl tl' k H; simpl in H.
  - injection H as <-. reflexivity.
  - destruct (fold_opt (add_cpu a svc) ss tl) as [tl1|] eqn:E; [|discriminate].
    rewrite (IH _ _ _ H). eapply Hin; exact E.
Qed.

Lemma add_power_skips tl s :
  (p_ts s = None \/ p_power_w s = None) -> add_power tl s = Some tl.
Proof.
  unfold add_power. intros [-> | ->]; [reflexivity|]. destruct (p_ts s); reflexivity.
Qed.

(** C7: when [build_timeline] returns, the power entry at every key is
    the reading of the last sample (in input order) that has both [ts]
    and [power_w] and whose timestamp normalizes to that key; a sample
    missing either field changes nothing. *)
Theorem build_timeline_power_last_write (a : Attributor) (ps : list PowerSample)
    (cs : dict (list CpuSample)) (tl : Timeline) :
  build_timeline a ps cs = Some tl ->
  (forall k, match d_lookup k tl with Some e => shelly e | None => None end
             = last_power_reading k ps) /\
  (forall ps1 s ps2, ps = ps1 ++ s :: ps2 ->
     (p_ts s = None \/ p_power_w s = None) ->
     build_timeline a (ps1 ++ ps2) cs = Some tl).
Proof.
  unfold build_timeline. intros H.
  destruct (fold_opt add_power ps []) as [tl0|] eqn:E0; [|discriminate].
  split.
  - intros k. transitivity (shelly (entry_at k tl)).
    { unfold entry_at. destruct (d_lookup k tl); reflexivity. }
    rewrite (cpu_loop_keeps_power a cs tl0 tl k H).
    rewrite (power_loop_at ps [] tl0 k E0). reflexivity.
  - intros ps1 s ps2 -> Hs. rewrite fold_opt_app in E0 |- *.
    destruct (fold_opt add_power ps1 []) as [tl1|]; [|discriminate].
    cbn [fold_opt] in E0. rewrite add_power_skips in E0 by exact Hs.
    rewrite E0. exact H.
Qed.

Lemma fold_opt_fail_at {A B} (f : A -> B -> option A) l1 x l2 acc :
  (forall acc', f acc' x = None) ->
  fold_opt f (l1 ++ x :: l2) acc = None.
Proof.
  intros Hx. rewrite fold_opt_app.
  destruct (fold_opt f l1 acc); [|reflexivity].
  simpl. rewrite Hx. reflexivity.
Qed.



(** Two samples at the same instant written with different offsets, a
    sample without [ts] and one without [power_w]. *)
Lemma build_timeline_power_last_write_witness :
  let a := mkAttributor 4 5 (1 # 100) in
  let ps := [mkPowerSample (Some "2024-01-01T00:00:00"%string) (Some 10) None;
             mkPowerSample (Some "2024-01-01T01:00:00+01:00"%string) (Some 12) (Some 230);
             mkPowerSample None (Some 5) None;
             mkPowerSample (Some "2024-01-01T00:00:01"%string) None None] in
  let cs := [("A"%string, [mkCpuSample (Some "2024-01-01T00:00:00"%string) (Some 1) None])] in
  match build_timeline a ps cs with
  | Some tl =>
      (forall k, match d_lookup k tl with Some e => shelly e | None => None end
                 = last_power_reading k ps) /\
      (forall ps1 s ps2, ps = ps1 ++ s :: ps2 ->
         (p_ts s = None \/ p_power_w s = None) ->
         build_timeline a (ps1 ++ ps2) cs = Some tl)
  | None => False
  end.
Proof.
  intros a ps cs.
  destruct (build_timeline a ps cs) as [tl|] eqn:E.
  - exact (build_timeline_power_last_write a ps cs tl E).
  - vm_compute in E. discriminate.
Defined.


End BuildFacts.

Module AlignFacts.
Import Timestamp Attribution.
Open Scope Q_scope.

Lemma nearest_loop_spec cands target : forall best res,
  nearest_loop cands target best = Some res ->
  match res with
  | None => best = None /\ cands = []
  | Some (bd, b) =>
      (best = Some (bd, b) \/
       exists tp ep, In (tp, b) cands /\ ts_to_epoch tp = Some ep /\
                     bd = Qabs (ep - target)) /\
      (forall bd0 b0, best = Some (bd0, b0) -> bd <= bd0) /\
      (forall tq q eq, In (tq, q) cands -> ts_to_epoch tq = Some eq ->
                       bd <= Qabs (eq - target))
  end.
Proof.
  induction cands as [|[ts obj] rest IH]; intros best res H; cbn [nearest_loop] in H.
  - injection H as <-. destruct best as [[bd b]|]; [|auto].
    split; [left; reflexivity|]. split.
    + intros bd0 b0 E. injection E as <- <-. apply Qle_refl.
    + intros tq q eq [].
  - destruct (ts_to_epoch ts) as [e|] eqn:Ee; [|discriminate].
    set (delta := Qabs (e - target)) in H.
    set (best' := match best with
                  | None => Some (delta, obj)
                  | Some (bd, _) => if Qltb delta bd then Some (delta, obj) else best
                  end) in H.
    (* what [best'] is made of *)
    assert (Hb' : exists bd' b', best' = Some (bd', b') /\
                  (best = Some (bd', b') \/ (bd' = delta /\ b' = obj)) /\
                  bd' <= delta /\
                  (forall bd0 b0, best = Some (bd0, b0) -> bd' <= bd0)).
    { unfold best'. destruct best as [[bd0 b0]|].
      - destruct (Qltb delta bd0) eqn:Elt.
        + apply AttributeFacts.Qltb_spec in Elt.
          exists delta, obj. split; [reflexivity|]. split; [right; auto|].
          split; [apply Qle_refl|]. intros bd1 b1 E. injection E as <- <-.
          apply Qlt_le_weak; exact Elt.
        + apply AttributeFacts.Qltb_false in Elt.
          exists bd0, b0. split; [reflexivity|]. split; [left; reflexivity|].
          split; [exact Elt|]. intros bd1 b1 E. injection E as <- <-. apply Qle_refl.
      - exists delta, obj. split; [reflexivity|]. split; [right; auto|].
        split; [apply Qle_refl|]. discriminate. }
    destruct Hb' as (bd' & b' & Eb' & Horig & Hdelta & Hbest).
    specialize (IH best' res H). rewrite Eb' in IH.
    destruct res as [[bd b]|]; [|destruct IH as [E _]; discriminate].
    destruct IH as (Hor & Hle & Hmin).
    specialize (Hle bd' b' eq_refl).
    split; [|split].
    + destruct Hor as [E | (tp & ep & Hin & Hep & Hbd)].
      * injection E as <- <-. destruct Horig as [E | [-> ->]]; [left; exact E|].
        right. exists ts, e. split; [left; reflexivity|]. split; [exact Ee|reflexivity].
      * right. exists tp, ep. split; [right; exact Hin|]. auto.
    + intros bd0 b0 E. eapply Qle_trans; [exact Hle|]. eapply Hbest; exact E.
    + intros tq q eq [E | Hin] Heq.
      * injection E as <- <-. rewrite Ee in Heq. injection Heq as <-.
        eapply Qle_trans; [exact Hle | exact Hdelta].
      * eapply Hmin; eassumption.
Qed.

Lemma nearest_by_time_spec cands target skew m :
  nearest_by_time cands target skew = Some m ->
  match m with
  | Some b =>
      exists tp ep, In (tp, b) cands /\ ts_to_epoch tp = Some ep /\
        Qabs (ep - target) <= skew /\
        (forall tq q eq, In (tq, q) cands -> ts_to_epoch tq = Some eq ->
                         Qabs (ep - target) <= Qabs (eq - target))
  | None =>
      forall tq q eq, In (tq, q) cands -> ts_to_epoch tq = Some eq ->
                      skew < Qabs (eq - target)
  end.
Proof.
  unfold nearest_by_time. intros H.
  destruct (nearest_loop cands target None) as [res|] eqn:E; [|discriminate].
  apply nearest_loop_spec in E.
  destruct res as [[bd b]|].
  - destruct E as ([E | (tp & ep & Hin & Hep & Hbd)] & _ & Hmin); [discriminate|].
    destruct (Qle_bool bd skew) eqn:Es; injection H as <-.
    + apply Qle_bool_iff in Es. exists tp, ep. subst bd. auto.
    + intros tq q eq Hin' Heq. apply Qnot_le_lt. intros Hle.
      assert (bd <= skew) as Hc by (eapply Qle_trans; [eapply Hmin; eassumption | exact Hle]).
      apply Qle_bool_iff in Hc. congruence.
  - destruct E as [_ ->]. injection H as <-. intros tq q eq [].
Qed.

Lemma align_step_lookup so skew acc t svcs acc1 :
  align_step so skew acc (t, svcs) = Some acc1 ->
  exists te m, ts_to_epoch t = Some te /\ nearest_by_time so te skew = Some m /\
    forall k, d_lookup k acc1 =
              if String.eqb k t then
                match m with
                | Some r => Some (mkAligned r svcs)
                | None => d_lookup k acc
                end
              else d_lookup k acc.
Proof.
  cbn [align_step]. intros H.
  destruct (ts_to_epoch t) as [te|] eqn:Et; [|discriminate].
  destruct (nearest_by_time so te skew) as [m|] eqn:Em; [|discriminate].
  exists te, m. split; [reflexivity|]. split; [exact Em|].
  intros k. destruct m as [r|]; injection H as <-.
  - rewrite BuildFacts.d_lookup_set. reflexivity.
  - destruct (String.eqb k t); reflexivity.
Qed.

Lemma align_fold_frame so skew t : forall l acc fin,
  fold_opt (align_step so skew) l acc = Some fin ->
  ~ In t (map fst l) -> d_lookup t fin = d_lookup t acc.
Proof.
  induction l as [|[t0 v0] l IH]; intros acc fin H Hn; cbn [fold_opt] in H.
  - injection H as <-. reflexivity.
  - destruct (align_step so skew acc (t0, v0)) as [acc1|] eqn:E; [|discriminate].
    cbn [map fst In] in Hn.
    rewrite (IH acc1 fin H (fun Hi => Hn (or_intror Hi))).
    destruct (align_step_lookup _ _ _ _ _ _ E) as (te & m & _ & _ & Hk).
    rewrite Hk. destruct (String.eqb t t0) eqn:Eq; [|reflexivity].
    apply String.eqb_eq in Eq. exfalso. apply Hn. left. symmetry. exact Eq.
Qed.

Lemma align_fold_at so skew t svcs : forall l acc fin,
  fold_opt (align_step so skew) l acc = Some fin ->
  NoDup (map fst l) -> In (t, svcs) l -> d_lookup t acc = None ->
  exists te m, ts_to_epoch t = Some te /\ nearest_by_time so te skew = Some m /\
    d_lookup t fin = option_map (fun r => mkAligned r svcs) m.
Proof.
  induction l as [|[t0 v0] l IH]; intros acc fin H Hnd Hin Hacc; [destruct Hin|].
  cbn [fold_opt] in H.
  destruct (align_step so skew acc (t0, v0)) as [acc1|] eqn:E; [|discriminate].
  cbn [map fst] in Hnd. apply NoDup_cons_iff in Hnd as [Hn Hnd].
  destruct (align_step_lookup _ _ _ _ _ _ E) as (te & m & Et & Em & Hk).
  destruct Hin as [Eh | Hin].
  - injection Eh as -> ->.
    exists te, m. split; [exact Et|]. split; [exact Em|].
    rewrite (align_fold_frame _ _ _ _ _ _ H Hn), Hk, String.eqb_refl.
    destruct m; [reflexivity | exact Hacc].
  - apply (IH acc1 fin H Hnd Hin).
    rewrite Hk. destruct (String.eqb t t0) eqn:Eq; [|exact Hacc].
    apply String.eqb_eq in Eq; subst t0. exfalso. apply Hn.
    apply (in_map fst) in Hin. exact Hin.
Qed.

Lemma d_lookup_In {A} (k : string) (v : A) d :
  d_lookup k d = Some v -> In (k, v) d.
Proof.
  induction d as [|[k0 v0] d IH]; cbn [d_lookup]; [discriminate|].
  destruct (String.eqb k k0) eqn:E.
  - apply String.eqb_eq in E; subst k0. intros H; injection H as <-. left; reflexivity.
  - intros H. right. exact (IH H).
Qed.

Lemma service_only_In tl t data svcs :
  In (t, data) tl -> services data = Some svcs -> In (t, svcs) (service_only tl).
Proof.
  intros Hin Hs. unfold service_only. apply in_flat_map.
  exists (t, data). split; [exact Hin|]. rewrite Hs. left; reflexivity.
Qed.

Lemma service_only_keys tl :
  NoDup (map fst tl) -> NoDup (map fst (service_only tl)).
Proof.
  induction tl as [|[t0 d0] tl IH]; cbn [map fst]; intros Hnd; [constructor|].
  apply NoDup_cons_iff in Hnd as [Hn Hnd].
  unfold service_only; cbn [flat_map]; fold (service_only tl).
  destruct (services d0) as [s0|]; [|exact (IH Hnd)].
  cbn [app map fst]. constructor; [|exact (IH Hnd)].
  intros Hi. apply Hn. apply in_map_iff in Hi as ([t1 s1] & E & Hi). cbn [fst] in E; subst t1.
  unfold service_only in Hi. apply in_flat_map in Hi as ([t2 d2] & Hi2 & Hs).
  destruct (services d2); [|destruct Hs].
  destruct Hs as [E|[]]. injection E as -> _. apply (in_map fst) in Hi2. exact Hi2.
Qed.

(** Claim C2: for every timeline (a dict, so its keys are distinct) and
    every [max_time_skew_s], each timestamp [t] carrying a services entry
    parses, and if some power-bearing timestamp lies within
    [max_time_skew_s] of [t], the aligned result maps [t] to the services
    paired with the reading of a power-bearing timestamp within the skew
    whose distance to [t] is minimal over all power-bearing timestamps;
    if every power-bearing timestamp is farther than [max_time_skew_s],
    [t] is absent from the aligned result. *)
Theorem align_timeline_nearest (a : Attributor) (tl : Timeline) al t data svcs :
  NoDup (map fst tl) ->
  align_timeline a tl = Some al ->
  d_lookup t tl = Some data ->
  services data = Some svcs ->
  exists et, ts_to_epoch t = Some et /\
    ((exists tp p ep, In (tp, p) (shelly_only tl) /\ ts_to_epoch tp = Some ep /\
                      Qabs (ep - et) <= max_time_skew_s a) ->
     exists tp p ep, In (tp, p) (shelly_only tl) /\ ts_to_epoch tp = Some ep /\
       d_lookup t al = Some (mkAligned p svcs) /\
       Qabs (ep - et) <= max_time_skew_s a /\
       (forall tq q eq, In (tq, q) (shelly_only tl) -> ts_to_epoch tq = Some eq ->
                        Qabs (ep - et) <= Qabs (eq - et))) /\
    ((forall tp p ep, In (tp, p) (shelly_only tl) -> ts_to_epoch tp = Some ep ->
                      max_time_skew_s a < Qabs (ep - et)) ->
     d_lookup t al = None).
Proof.
  intros Hnd Hal Ht Hs. unfold align_timeline in Hal.
  destruct (align_fold_at _ _ t svcs _ _ _ Hal (service_only_keys _ Hnd)
              (service_only_In _ _ _ _ (d_lookup_In _ _ _ Ht) Hs) eq_refl)
    as (te & m & Et & Em & Hl).
  exists te. split; [exact Et|].
  apply nearest_by_time_spec in Em.
  destruct m as [b|]; cbn [option_map] in Hl.
  - destruct Em as (tp & ep & Hin & Hep & Hsk & Hmin). split.
    + intros _. exists tp, b, ep. auto.
    + intros Hfar. exfalso. apply (Qlt_not_le _ _ (Hfar _ _ _ Hin Hep)). exact Hsk.
  - split.
    + intros (tp & p & ep & Hin & Hep & Hsk). exfalso.
      apply (Qlt_not_le _ _ (Em _ _ _ Hin Hep)). exact Hsk.
    + intros _. exact Hl.
Qed.

(** Power at 00:00:00 and 00:00:04, services at 00:00:03: the reading of
    00:00:04 (one second away) is paired with them. *)
Lemma align_timeline_nearest_witness :
  let a := mkAttributor 4 5 (1 # 100) in
  let svcs := [("A"%string, mkService 1 25 None)] in
  let data := mkEntry None (Some svcs) in
  let t := "2024-01-01T00:00:03+00:00"%string in
  let tl : Timeline :=
    [("2024-01-01T00:00:00+00:00"%string, mkEntry (Some (mkShelly 10 None)) None);
     ("2024-01-01T00:00:04+00:00"%string, mkEntry (Some (mkShelly 20 None)) None);
     (t, data);
     ("2024-01-01T00:00:30+00:00"%string,
      mkEntry None (Some [("A"%string, mkService 2 50 None)]))] in
  NoDup (map fst tl) /\ d_lookup t tl = Some data /\ services data = Some svcs /\
  match align_timeline a tl with
  | Some al =>
      exists et, ts_to_epoch t = Some et /\
        ((exists tp p ep, In (tp, p) (shelly_only tl) /\ ts_to_epoch tp = Some ep /\
                          Qabs (ep - et) <= max_time_skew_s a) ->
         exists tp p ep, In (tp, p) (shelly_only tl) /\ ts_to_epoch tp = Some ep /\
           d_lookup t al = Some (mkAligned p svcs) /\
           Qabs (ep - et) <= max_time_skew_s a /\
           (forall tq q eq, In (tq, q) (shelly_only tl) -> ts_to_epoch tq = Some eq ->
                            Qabs (ep - et) <= Qabs (eq - et))) /\
        ((forall tp p ep, In (tp, p) (shelly_only tl) -> ts_to_epoch tp = Some ep ->
                          max_time_skew_s a < Qabs (ep - et)) ->
         d_lookup t al = None)
  | None => False
  end.
Proof.
  intros a svcs data t tl.
  assert (Hnd : NoDup (map fst tl)).
  { repeat (apply NoDup_cons;
            [cbn; intros H; repeat destruct H as [H|H]; try discriminate H; exact H|]).
    apply NoDup_nil. }
  assert (Hl : d_lookup t tl = Some data) by reflexivity.
  assert (Hs : services data = Some svcs) by reflexivity.
  split; [exact Hnd|]. split; [exact Hl|]. split; [exact Hs|].
  destruct (align_timeline a tl) as [al|] eqn:E.
  - exact (align_timeline_nearest a tl al t data svcs Hnd E Hl Hs).
  - vm_compute in E. discriminate.
Defined.

End AlignFacts.

Module ExportFacts.
Import Timestamp Attribution.

Lemma get_append_reading out svc n ts s :
  match d_lookup svc (append_reading out n ts s) with Some l => l | None => [] end =
  (match d_lookup svc out with Some l => l | None => [] end)
  ++ (if String.eqb n svc then [(ts, s)] else []).
Proof.
  unfold append_reading. rewrite BuildFacts.d_lookup_set.
  destruct (String.eqb svc n) eqn:E.
  - apply String.eqb_eq in E; subst n. rewrite String.eqb_refl. reflexivity.
  - destruct (String.eqb n svc) eqn:E'.
    + apply String.eqb_eq in E'; subst n. rewrite String.eqb_refl in E. discriminate.
    + rewrite app_nil_r. reflexivity.
Qed.

Lemma get_export_instant svc ts svcs : forall out,
  match d_lookup svc (fold_left (fun out '(n, s) => append_reading out n ts s) svcs out)
  with Some l => l | None => [] end =
  (match d_lookup svc out with Some l => l | None => [] end)
  ++ map (fun '(_, s) => (ts, s)) (filter (fun '(n, _) => String.eqb n svc) svcs).
Proof.
  induction svcs as [|[n s] svcs IH]; intros out; simpl.
  - rewrite app_nil_r. reflexivity.
  - rewrite IH, get_append_reading, <- app_assoc.
    destruct (String.eqb n svc); reflexivity.
Qed.

Lemma export_get_acc (al : AlignedTimeline) (service : string) : forall out,
  match d_lookup service
          (fold_left (fun out '(ts, data) =>
                        fold_left (fun out '(n, s) => append_reading out n ts s)
                                  (a_services data) out) al out)
  with Some l => l | None => [] end =
  (match d_lookup service out with Some l => l | None => [] end) ++ pivot service al.
Proof.
  unfold pivot.
  induction al as [|[ts data] al IH]; intros out; cbn [fold_left flat_map].
  - rewrite app_nil_r. reflexivity.
  - rewrite IH, get_export_instant, app_assoc. reflexivity.
Qed.

(** C5 (as the code behaves): the list exported for a service holds one
    entry per attributed instant at which the service appears, with the
    instant's timestamp, in the iteration order of the attributed
    timeline; nothing re-sorts it by time. *)
Theorem export_per_service_follows_timeline_order (al : AlignedTimeline) (service : string) :
  match d_lookup service (export_per_service al) with Some l => l | None => [] end =
  pivot service al.
Proof.
  unfold export_per_service. rewrite export_get_acc. reflexivity.
Qed.

(** C5: CPU samples of service [A] read in the order 00:00:03, 00:00:01,
    one power sample at 00:00:02: the exported series of [A] lists
    00:00:03 before 00:00:01. *)
Lemma export_per_service_unsorted_example :
  match run_pipeline (mkAttributor 4 5 (1 # 100))
          [mkPowerSample (Some "2024-01-01T00:00:02"%string) (Some 20) None]
          [("A"%string,
            [mkCpuSample (Some "2024-01-01T00:00:03"%string) (Some 1) None;
             mkCpuSample (Some "2024-01-01T00:00:01"%string) (Some 1) None])]
  with
  | Some out => option_map (fun l => (map fst l, times_nondecreasing l))
                           (d_lookup "A"%string out)
  | None => None
  end = Some (["2024-01-01T00:00:03+00:00"; "2024-01-01T00:00:01+00:00"]%string, false).
Proof. vm_compute. reflexivity. Qed.

End ExportFacts.

Module ShellyFacts.
Import Shelly.

(** C9: [stop] on an adapter whose run flag is false returns at once and
    changes no field; after any [stop] a second [stop] is a no-op, and the
    sampler thread is joined at most once. *)
Theorem stop_noop_and_idempotent (a : ShellyAdapter) :
  (run a = false -> stop a = (a, [])) /\
  stop (fst (stop a)) = (fst (stop a), []) /\
  (List.length (snd (stop a) ++ snd (stop (fst (stop a)))) <= 1)%nat.
Proof.
  destruct a as [u t s au th r o h]; cbn [run].
  destruct r.
  - split; [discriminate|].
    destruct th as [tt|]; unfold stop; cbn; split; auto.
  - split; [reflexivity|]. unfold stop; cbn. split; auto.
Qed.

(** An adapter that was never started: [stop] changes nothing, and a
    running one is stopped once. *)
Lemma stop_noop_and_idempotent_witness :
  let idle := mkAdapter "http://192.168.1.50"%string 5 0 None None false None 1 in
  let busy := mkAdapter "http://192.168.1.50"%string 5 0 None (Some (mkThread 1)) true None 1 in
  (run idle = false /\ stop idle = (idle, [])) /\
  stop (fst (stop busy)) = (fst (stop busy), []) /\
  (List.length (snd (stop busy) ++ snd (stop (fst (stop busy)))) <= 1)%nat.
Proof.
  intros idle busy.
  assert (Hr : run idle = false) by reflexivity.
  split; [split; [exact Hr | exact (proj1 (stop_noop_and_idempotent idle) Hr)]|].
  exact (proj2 (stop_noop_and_idempotent busy)).
Defined.

End ShellyFacts.

(* ================================================================== *)
(** * Further properties of the code *)

Module AttributeExtra.
Import Timestamp Attribution.
Open Scope Q_scope.

Lemma share_loop_some total power svcs :
  Qeq_bool total 0 = false -> exists svcs', share_loop total power svcs = Some svcs'.
Proof.
  intros Hz. induction svcs as [|[n s] l [l' IH]]; simpl.
  - eexists; reflexivity.
  - rewrite Hz, IH. eexists; reflexivity.
Qed.

Lemma attribute_entry_some eps data :
  0 < eps -> exists data', attribute_entry eps data = Some data'.
Proof.
  intros Heps. unfold attribute_entry.
  destruct (Qltb (cpu_total_of (a_services data)) eps) eqn:Elt; [eexists; reflexivity|].
  apply AttributeFacts.Qltb_false in Elt.
  destruct (share_loop_some (cpu_total_of (a_services data)) (power_w (a_shelly data))
                            (a_services data)) as [l' ->].
  - destruct (Qeq_bool _ 0) eqn:E; [|reflexivity].
    apply Qeq_bool_iff in E. exfalso. apply (Qlt_not_le _ _ Heps). rewrite <- E. exact Elt.
  - eexists; reflexivity.
Qed.

Lemma attribute_some (a : Attributor) (al : AlignedTimeline) :
  0 < cpu_epsilon_cores a -> exists out, attribute a al = Some out.
Proof.
  intros Heps. unfold attribute.
  induction al as [|[t d] al [out IH]]; simpl; [eexists; reflexivity|].
  destruct (attribute_entry_some _ d Heps) as [d' ->]. rewrite IH. eexists; reflexivity.
Qed.

(** With a positive [cpu_epsilon_cores], [attribute] never raises: the
    division by [cpu_total] only happens when [cpu_total] is at least the
    epsilon. *)
Theorem attribute_total_when_epsilon_positive (a : Attributor) (al : AlignedTimeline) :
  0 < cpu_epsilon_cores a -> exists out, attribute a al = Some out.
Proof. apply attribute_some. Qed.

(** With [cpu_epsilon_cores <= 0], an instant whose services all use zero
    cores makes [attribute] raise [ZeroDivisionError]. *)
Theorem attribute_raises_on_idle_instant_without_epsilon
    (a : Attributor) (al : AlignedTimeline) t d :
  cpu_epsilon_cores a <= 0 -> In (t, d) al -> a_services d <> [] ->
  cpu_total_of (a_services d) == 0 ->
  attribute a al = None.
Proof.
  intros Heps Hin Hne Hz. unfold attribute.
  assert (Hd : attribute_entry (cpu_epsilon_cores a) d = None).
  { unfold attribute_entry.
    destruct (Qltb (cpu_total_of (a_services d)) (cpu_epsilon_cores a)) eqn:Elt.
    - apply AttributeFacts.Qltb_spec in Elt. exfalso.
      apply (Qlt_not_le _ _ Elt). rewrite Hz. exact Heps.
    - destruct (a_services d) as [|[n s] l]; [contradiction|].
      cbn [share_loop]. apply Qeq_bool_iff in Hz. rewrite Hz. reflexivity. }
  induction al as [|[t0 d0] al IH]; [destruct Hin|]. cbn [attribute_loop].
  destruct Hin as [E | Hin].
  - injection E as -> ->. rewrite Hd. reflexivity.
  - destruct (attribute_entry _ d0); [|reflexivity]. rewrite (IH Hin). reflexivity.
Qed.

Lemma cores_le_total svcs n s :
  Forall (fun '(_, s) => 0 <= cpu_cores_used s) svcs ->
  In (n, s) svcs -> cpu_cores_used s <= cpu_total_of svcs.
Proof.
  unfold cpu_total_of. intros Hall Hin.
  assert (Hgen : forall acc, 0 <= acc ->
            Forall (fun '(_, s) => 0 <= cpu_cores_used s) svcs ->
            (In (n, s) svcs -> cpu_cores_used s <= fold_left (fun acc '(_, s) => acc + cpu_cores_used s) svcs acc) /\
            acc <= fold_left (fun acc '(_, s) => acc + cpu_cores_used s) svcs acc).
  { clear Hall Hin. induction svcs as [|[n0 s0] l IH]; intros acc Hacc Hall; cbn [fold_left].
    - split; [intros []|apply Qle_refl].
    - inversion Hall as [|? ? Hs0 Hl]; subst.
      assert (Hacc' : 0 <= acc + cpu_cores_used s0).
      { apply (Qle_trans _ (0 + 0)); [apply Qle_refl|]. apply Qplus_le_compat; assumption. }
      destruct (IH _ Hacc' Hl) as [H1 H2]. split.
      + intros [E | Hi].
        * injection E as -> ->. eapply Qle_trans; [|exact H2].
          rewrite <- (Qplus_0_l (cpu_cores_used s)) at 1.
          apply Qplus_le_compat; [exact Hacc|apply Qle_refl].
        * exact (H1 Hi).
      + eapply Qle_trans; [|exact H2].
        rewrite <- (Qplus_0_r acc) at 1. apply Qplus_le_compat; [apply Qle_refl|exact Hs0]. }
  apply (proj1 (Hgen 0 (Qle_refl 0) Hall) Hin).
Qed.

Lemma total_nonneg svcs :
  Forall (fun '(_, s) => 0 <= cpu_cores_used s) svcs -> 0 <= cpu_total_of svcs.
Proof.
  unfold cpu_total_of. intros Hall.
  assert (Hg : forall acc, 0 <= acc ->
            0 <= fold_left (fun acc '(_, s) => acc + cpu_cores_used s) svcs acc).
  { induction Hall as [|[n s] l Hs Hl IH]; intros acc Hacc; cbn [fold_left]; [exact Hacc|].
    apply IH. apply (Qle_trans _ (0 + 0)); [apply Qle_refl|].
    apply Qplus_le_compat; assumption. }
  apply Hg, Qle_refl.
Qed.
Lemma attribute_entry_bounded eps d d' :
  0 <= power_w (a_shelly d) ->
  Forall (fun '(_, s) => 0 <= cpu_cores_used s) (a_services d) ->
  attribute_entry eps d = Some d' ->
  a_shelly d' = a_shelly d /\
  Forall (fun '(_, s) => exists v, estimated_power_from_shelly_watt s = Some v /\
                                   0 <= v <= power_w (a_shelly d)) (a_services d').
Proof.
  intros Hp Hc H. unfold attribute_entry in H.
  destruct (Qltb (cpu_total_of (a_services d)) eps) eqn:Elt.
  - injection H as <-. split; [reflexivity|]. cbn [a_services].
    apply Forall_forall. intros [n s] Hin.
    apply in_map_iff in Hin as [[n0 s0] [E _]]. injection E as <- <-.
    exists 0. split; [reflexivity|]. split; [apply Qle_refl|exact Hp].
  - destruct (share_loop _ _ _) as [svcs'|] eqn:Es; [|discriminate].
    injection H as <-. split; [reflexivity|]. cbn [a_services a_shelly].
    destruct (AttributeFacts.share_loop_spec _ _ _ _ Es) as [-> Hz].
    set (T := cpu_total_of (a_services d)) in *.
    apply Forall_forall. intros [n s] Hin.
    apply in_map_iff in Hin as [[n0 s0] [E Hin0]]. injection E as <- <-.
    assert (Hne : a_services d <> []) by (intros E; rewrite E in Hin0; destruct Hin0).
    specialize (Hz Hne).
    assert (HT : 0 < T).
    { destruct (Qlt_le_dec 0 T) as [Hlt|Hle]; [exact Hlt|].
      exfalso. assert (E : T == 0).
      { apply Qle_antisym; [exact Hle|]. apply total_nonneg, Hc. }
      apply Qeq_bool_iff in E. congruence. }
    pose proof (proj1 (Forall_forall _ _) Hc _ Hin0) as Hs0. cbn beta iota in Hs0.
    pose proof (cores_le_total _ _ _ Hc Hin0) as HsT. fold T in HsT.
    exists (cpu_cores_used s0 / T * power_w (a_shelly d)). split; [reflexivity|].
    assert (F0 : 0 <= cpu_cores_used s0 / T).
    { apply Qle_shift_div_l; [exact HT|]. rewrite Qmult_0_l. exact Hs0. }
    assert (F1 : cpu_cores_used s0 / T <= 1).
    { apply Qle_shift_div_r; [exact HT|]. rewrite Qmult_1_l. exact HsT. }
    split.
    + rewrite <- (Qmult_0_l (power_w (a_shelly d))).
      apply Qmult_le_compat_r; assumption.
    + rewrite <- (Qmult_1_l (power_w (a_shelly d))) at 2.
      apply Qmult_le_compat_r; assumption.
Qed.

(** When power readings and CPU figures are non-negative, every estimate
    [attribute] sets lies between 0 and the instant's [power_w]. *)
Theorem attribute_estimates_between_zero_and_power (a : Attributor)
    (al out : AlignedTimeline) :
  Forall (fun '(_, d) => 0 <= power_w (a_shelly d) /\
                         Forall (fun '(_, s) => 0 <= cpu_cores_used s) (a_services d)) al ->
  attribute a al = Some out ->
  Forall (fun '(_, d) =>
            Forall (fun '(_, s) => exists v, estimated_power_from_shelly_watt s = Some v /\
                                             0 <= v <= power_w (a_shelly d))
                   (a_services d)) out.
Proof.
  intros Hall H. unfold attribute in H. apply AttributeFacts.attribute_loop_entries in H.
  induction H as [|[t d] [t' d'] al out [_ Hd] _ IH]; constructor.
  - inversion Hall as [|? ? Hx _]; subst. destruct Hx as [Hp Hc].
    destruct (attribute_entry_bounded _ _ _ Hp Hc Hd) as [E Hf].
    rewrite E. exact Hf.
  - apply IH. inversion Hall; assumption.
Qed.

End AttributeExtra.

Module TimestampExtra.
Import Timestamp.
Open Scope Z_scope.

(** A canonical timestamp: the ISO-8601 UTC form of a valid date and
    time at whole seconds. *)
Definition canonical (k : string) : Prop :=
  exists yr mo d h mi s,
    valid_date yr mo d = true /\ valid_time h mi s 0 = true /\
    k = iso8601_utc_seconds yr mo d h mi s.

Lemma normalize_iso yr mo d h mi s :
  valid_date yr mo d = true -> valid_time h mi s 0 = true ->
  normalize_ts (iso8601_utc_seconds yr mo d h mi s) =
  Some (iso8601_utc_seconds yr mo d h mi s).
Proof.
  intros Hd Ht. unfold normalize_ts.
  rewrite TimestampFacts.fromisoformat_utc_seconds by assumption.
  unfold to_utc; cbn [tzoff]. rewrite TimestampFacts.astimezone_utc_zero by assumption.
  unfold drop_microsecond; cbn [year month day hour minute second microsecond tzoff].
  rewrite TimestampFacts.isoformat_utc_seconds, string_of_list_ascii_of_string.
  reflexivity.
Qed.

Lemma canonical_normalize k : canonical k -> normalize_ts k = Some k.
Proof.
  intros (yr & mo & d & h & mi & s & Hd & Ht & ->). apply normalize_iso; assumption.
Qed.

Lemma canonical_epoch k : canonical k -> exists e, ts_to_epoch k = Some e.
Proof.
  intros (yr & mo & d & h & mi & s & Hd & Ht & ->). unfold ts_to_epoch.
  rewrite TimestampFacts.fromisoformat_utc_seconds by assumption.
  eexists; reflexivity.
Qed.

Lemma canonical_drop_microsecond u :
  valid_date (year u) (month u) (day u) = true ->
  valid_time (hour u) (minute u) (second u) (microsecond u) = true ->
  tzoff u = Some 0 ->
  canonical (string_of_list_ascii (isoformat (drop_microsecond u))).
Proof.
  intros Hud Hut Hutz.
  assert (Hut0 : valid_time (hour u) (minute u) (second u) 0 = true).
  { unfold valid_time in *. TimestampFacts.bool_prop. TimestampFacts.valid_goal. lia. }
  exists (year u), (month u), (day u), (hour u), (minute u), (second u).
  split; [exact Hud|]. split; [exact Hut0|].
  unfold drop_microsecond. rewrite Hutz, TimestampFacts.isoformat_utc_seconds.
  apply string_of_list_ascii_of_string.
Qed.

Lemma normalize_ts_canonical x y : normalize_ts x = Some y -> canonical y.
Proof.
  unfold normalize_ts. intros H.
  destruct (fromisoformat (list_ascii_of_string x)) as [dt|] eqn:E1; [|discriminate].
  destruct (to_utc dt) as [u|] eqn:E2; [|discriminate].
  injection H as <-.
  destruct (TimestampFacts.fromisoformat_valid _ _ E1) as (Hd & Ht & Hoff).
  destruct (TimestampFacts.to_utc_valid dt u Hd Ht Hoff E2) as (Hud & Hut & Hutz).
  apply canonical_drop_microsecond; assumption.
Qed.

End TimestampExtra.

Module BuildExtra.
Import Timestamp Attribution PipelineSpec.
Open Scope Q_scope.

(** With [host_cpu_cores = 0], any CPU sample that has [ts] and
    [cpu_cores_used] and a parsable [ts] makes [build_timeline] raise
    [ZeroDivisionError], even when the sample carries
    [cpu_percent_host]: the default of [s.get] is evaluated eagerly. *)
Theorem build_timeline_zero_host_cores_raises (a : Attributor) ps cs1 service ss1 s ss2 cs2
    raw k :
  host_cpu_cores a = 0%Z ->
  c_ts s = Some raw -> c_cpu_cores_used s <> None -> normalize_ts raw = Some k ->
  build_timeline a ps (cs1 ++ (service, ss1 ++ s :: ss2) :: cs2) = None.
Proof.
  intros Hh Hts Hc Hn. unfold build_timeline.
  destruct (fold_opt add_power ps []) as [tl|]; [|reflexivity].
  apply BuildFacts.fold_opt_fail_at. intros tl'.
  apply BuildFacts.fold_opt_fail_at. intros tl''. unfold add_cpu. rewrite Hts.
  destruct (c_cpu_cores_used s); [|contradiction]. rewrite Hn, Hh. reflexivity.
Qed.

Lemma add_power_service_at tl s tl' k n :
  add_power tl s = Some tl' -> service_at tl' k n = service_at tl k n.
Proof.
  unfold add_power.
  destruct (p_ts s) as [raw|]; [|intros H; injection H as <-; reflexivity].
  destruct (p_power_w s) as [pw|]; [|intros H; injection H as <-; reflexivity].
  destruct (normalize_ts raw) as [ts|]; [|discriminate].
  intros H; injection H as <-. unfold service_at. rewrite BuildFacts.d_lookup_set.
  destruct (String.eqb k ts) eqn:E; [|reflexivity].
  apply String.eqb_eq in E; subst k. unfold entry_at.
  destruct (d_lookup ts tl); reflexivity.
Qed.

Lemma power_loop_service_at ps : forall tl tl' k n,
  fold_opt add_power ps tl = Some tl' -> service_at tl' k n = service_at tl k n.
Proof.
  induction ps as [|s ps IH]; intros tl tl' k n H; simpl in H.
  - injection H as <-. reflexivity.
  - destruct (add_power tl s) as [tl1|] eqn:E; [|discriminate].
    rewrite (IH _ _ k n H). eapply add_power_service_at; exact E.
Qed.

Lemma add_cpu_service_at a svc tl s tl' k n :
  add_cpu a svc tl s = Some tl' ->
  service_at tl' k n =
  match cpu_key a s with
  | Some (k', r) => if String.eqb k k' && String.eqb n svc then Some r else service_at tl k n
  | None => service_at tl k n
  end.
Proof.
  unfold add_cpu, cpu_key.
  destruct (c_ts s) as [raw|]; [|intros H; injection H as <-; reflexivity].
  destruct (c_cpu_cores_used s) as [c|]; [|intros H; injection H as <-; reflexivity].
  destruct (normalize_ts raw) as [ts|]; [|discriminate].
  destruct (host_cpu_cores a =? 0)%Z; [discriminate|].
  intros H; injection H as <-. unfold service_at. rewrite BuildFacts.d_lookup_set.
  destruct (String.eqb k ts) eqn:E; [|reflexivity].
  apply String.eqb_eq in E; subst k. cbn [services andb].
  rewrite BuildFacts.d_lookup_set.
  destruct (String.eqb n svc); [reflexivity|].
  unfold entry_at. destruct (d_lookup ts tl) as [e|]; [|reflexivity].
  destruct (services e); reflexivity.
Qed.

Lemma cpu_samples_service_at a svc k n ss : forall tl tl',
  fold_opt (add_cpu a svc) ss tl = Some tl' ->
  service_at tl' k n =
  fold_left (fun acc s =>
               match cpu_key a s with
               | Some (k', r) => if String.eqb k k' && String.eqb n svc then Some r else acc
               | None => acc
               end) ss (service_at tl k n).
Proof.
  induction ss as [|s ss IH]; intros tl tl' H; simpl in H.
  - injection H as <-. reflexivity.
  - destruct (add_cpu a svc tl s) as [tl1|] eqn:E; [|discriminate].
    cbn [fold_left]. rewrite (IH _ _ H). f_equal. apply add_cpu_service_at. exact E.
Qed.

Lemma cpu_loop_service_at a k n cs : forall tl tl',
  fold_opt (fun tl '(service, samples) => fold_opt (add_cpu a service) samples tl)
           cs tl = Some tl' ->
  service_at tl' k n =
  fold_left (fun acc '(svc, samples) =>
               fold_left (fun acc s =>
                            match cpu_key a s with
                            | Some (k', r) =>
                                if String.eqb k k' && String.eqb n svc then Some r else acc
                            | None => acc
                            end) samples acc)
            cs (service_at tl k n).
Proof.
  induction cs as [|[svc ss] cs IH]; intros tl tl' H; simpl in H.
  - injection H as <-. reflexivity.
  - destruct (fold_opt (add_cpu a svc) ss tl) as [tl1|] eqn:E; [|discriminate].
    cbn [fold_left]. rewrite (IH _ _ H). f_equal.
    apply cpu_samples_service_at. exact E.
Qed.

Lemma build_service_at a ps cs tl k n :
  build_timeline a ps cs = Some tl -> service_at tl k n = last_cpu_record a k n cs.
Proof.
  unfold build_timeline. intros H.
  destruct (fold_opt add_power ps []) as [tl0|] eqn:E0; [|discriminate].
  rewrite (cpu_loop_service_at a k n cs tl0 tl H).
  rewrite (power_loop_service_at ps [] tl0 k n E0). reflexivity.
Qed.

(** When [build_timeline] returns, the record of a service at a key is
    the one of the last CPU sample of that service (in input order) that
    has [ts] and [cpu_cores_used] and whose timestamp normalizes to the
    key: [cpu_cores_used] as given, [cpu_percent_host] as given or else
    [cpu_cores_used / host_cpu_cores * 100]. *)
Theorem build_timeline_cpu_last_write (a : Attributor) ps cs tl :
  build_timeline a ps cs = Some tl ->
  forall k service, service_at tl k service = last_cpu_record a k service cs.
Proof. intros H k n. apply (build_service_at _ _ _ _ _ _ H). Qed.

(** Keys of a timeline under construction. *)
Lemma d_set_keys {A} (k : string) (v : A) d :
  map fst (d_set k v d) =
  if existsb (String.eqb k) (map fst d) then map fst d else map fst d ++ [k].
Proof.
  induction d as [|[k0 v0] d IH]; [reflexivity|]. cbn [d_set map fst existsb].
  destruct (String.eqb k k0) eqn:E; cbn [map fst orb]; [reflexivity|].
  rewrite IH. destruct (existsb (String.eqb k) (map fst d)); reflexivity.
Qed.

Lemma NoDup_snoc (l : list string) k : NoDup l -> ~ In k l -> NoDup (l ++ [k]).
Proof.
  induction l as [|x l IH]; intros Hnd Hn; cbn.
  - constructor; [intros []|constructor].
  - inversion Hnd as [|? ? Hx Hl]; subst. constructor.
    + intros Hi. apply in_app_or in Hi as [Hi|[E|[]]]; [contradiction|].
      apply Hn. left. symmetry. exact E.
    + apply IH; [exact Hl|]. intros Hi. apply Hn. right. exact Hi.
Qed.

Definition keys_ok (tl : Timeline) : Prop :=
  NoDup (map fst tl) /\ Forall TimestampExtra.canonical (map fst tl).

Lemma keys_ok_set {A} (d : dict A) k v :
  NoDup (map fst d) -> Forall TimestampExtra.canonical (map fst d) ->
  TimestampExtra.canonical k ->
  NoDup (map fst (d_set k v d)) /\ Forall TimestampExtra.canonical (map fst (d_set k v d)).
Proof.
  intros Hnd Hc Hk. rewrite d_set_keys.
  destruct (existsb (String.eqb k) (map fst d)) eqn:E; [split; assumption|].
  split.
  - apply NoDup_snoc; [exact Hnd|]. intros Hi.
    assert (existsb (String.eqb k) (map fst d) = true) as E'.
    { apply existsb_exists. exists k. split; [exact Hi|apply String.eqb_refl]. }
    congruence.
  - apply Forall_app. split; [exact Hc|]. constructor; [exact Hk|constructor].
Qed.

Lemma add_power_keys tl s tl' : keys_ok tl -> add_power tl s = Some tl' -> keys_ok tl'.
Proof.
  intros [Hnd Hc]. unfold add_power.
  destruct (p_ts s) as [raw|]; [|intros H; injection H as <-; split; assumption].
  destruct (p_power_w s) as [pw|]; [|intros H; injection H as <-; split; assumption].
  destruct (normalize_ts raw) as [ts|] eqn:En; [|discriminate].
  intros H; injection H as <-. apply keys_ok_set; try assumption.
  eapply TimestampExtra.normalize_ts_canonical; exact En.
Qed.

Lemma add_cpu_keys a svc tl s tl' : keys_ok tl -> add_cpu a svc tl s = Some tl' -> keys_ok tl'.
Proof.
  intros [Hnd Hc]. unfold add_cpu.
  destruct (c_ts s) as [raw|]; [|intros H; injection H as <-; split; assumption].
  destruct (c_cpu_cores_used s) as [c|]; [|intros H; injection H as <-; split; assumption].
  destruct (normalize_ts raw) as [ts|] eqn:En; [|discriminate].
  destruct (host_cpu_cores a =? 0)%Z; [discriminate|].
  intros H; injection H as <-. apply keys_ok_set; try assumption.
  eapply TimestampExtra.normalize_ts_canonical; exact En.
Qed.

Lemma fold_opt_invariant {A B} (P : A -> Prop) (f : A -> B -> option A) :
  (forall acc x acc', P acc -> f acc x = Some acc' -> P acc') ->
  forall l acc fin, P acc -> fold_opt f l acc = Some fin -> P fin.
Proof.
  intros Hf l. induction l as [|x l IH]; intros acc fin Hacc H; simpl in H.
  - injection H as <-. exact Hacc.
  - destruct (f acc x) as [acc1|] eqn:E; [|discriminate].
    apply (IH acc1); [eapply Hf; eassumption|exact H].
Qed.

Lemma build_keys_ok a ps cs tl : build_timeline a ps cs = Some tl -> keys_ok tl.
Proof.
  unfold build_timeline. intros H.
  destruct (fold_opt add_power ps []) as [tl0|] eqn:E0; [|discriminate].
  assert (H0 : keys_ok tl0).
  { apply (fold_opt_invariant keys_ok add_power add_power_keys ps [] tl0);
      [split; constructor|exact E0]. }
  revert H; apply fold_opt_invariant; [|exact H0].
  intros acc [svc ss] acc' Hacc Hs.
  revert Hs; apply fold_opt_invariant; [|exact Hacc].
  intros. eapply add_cpu_keys; eassumption.
Qed.

(** When [build_timeline] returns, its keys are distinct and each is a
    fixed point of [normalize_ts]: an ISO-8601 UTC timestamp at whole
    seconds. *)
Theorem build_timeline_keys_canonical (a : Attributor) ps cs tl :
  build_timeline a ps cs = Some tl ->
  NoDup (map fst tl) /\ Forall (fun k => normalize_ts k = Some k) (map fst tl).
Proof.
  intros H. destruct (build_keys_ok _ _ _ _ H) as [Hnd Hc]. split; [exact Hnd|].
  eapply Forall_impl; [|exact Hc]. apply TimestampExtra.canonical_normalize.
Qed.

Lemma nearest_loop_some cands target : forall best,
  Forall (fun p => exists e, ts_to_epoch (fst p) = Some e) cands ->
  exists r, nearest_loop cands target best = Some r.
Proof.
  induction cands as [|[ts obj] rest IH]; intros best Hall; cbn [nearest_loop].
  - eexists; reflexivity.
  - inversion Hall as [|? ? [e He] Hr]; subst. cbn [fst] in He. rewrite He.
    apply IH. exact Hr.
Qed.

Lemma align_some (a : Attributor) (tl : Timeline) :
  Forall (fun p => exists e, ts_to_epoch (fst p) = Some e) tl ->
  exists al, align_timeline a tl = Some al.
Proof.
  intros Hall. unfold align_timeline.
  assert (Hs : Forall (fun p => exists e, ts_to_epoch (fst p) = Some e) (shelly_only tl)).
  { apply Forall_forall. intros [t r] Hin. unfold shelly_only in Hin.
    apply in_flat_map in Hin as ([t0 d0] & Hin0 & Hx).
    destruct (shelly d0); [|destruct Hx]. destruct Hx as [E|[]]. injection E as <- _.
    exact (proj1 (Forall_forall _ _) Hall _ Hin0). }
  assert (Hv : Forall (fun p => exists e, ts_to_epoch (fst p) = Some e) (service_only tl)).
  { apply Forall_forall. intros [t r] Hin. unfold service_only in Hin.
    apply in_flat_map in Hin as ([t0 d0] & Hin0 & Hx).
    destruct (services d0); [|destruct Hx]. destruct Hx as [E|[]]. injection E as <- _.
    exact (proj1 (Forall_forall _ _) Hall _ Hin0). }
  generalize (@nil (string * AlignedEntry)) as acc.
  induction Hv as [|[t svcs] l [e He] Hl IH]; intros acc; cbn [fold_opt].
  - eexists; reflexivity.
  - cbn [align_step fst] in *. rewrite He.
    destruct (nearest_loop_some (shelly_only tl) e None Hs) as [r Hr].
    unfold nearest_by_time. rewrite Hr.
    destruct r as [[bd b]|]; [destruct (Qle_bool bd _)|]; apply IH.
Qed.

Lemma built_keys_parse a ps cs tl :
  build_timeline a ps cs = Some tl ->
  Forall (fun p => exists e, ts_to_epoch (fst p) = Some e) tl.
Proof.
  intros H. destruct (build_keys_ok _ _ _ _ H) as [_ Hc].
  apply Forall_forall. intros p Hin.
  apply TimestampExtra.canonical_epoch.
  exact (proj1 (Forall_forall _ _) Hc _ (in_map fst _ _ Hin)).
Qed.

(** [align_timeline] never raises on a timeline [build_timeline]
    returned, whatever the attributor's settings. *)
Theorem align_timeline_total_on_built_timeline (a a' : Attributor) ps cs tl :
  build_timeline a ps cs = Some tl -> exists al, align_timeline a' tl = Some al.
Proof. intros H. apply align_some. eapply built_keys_parse; exact H. Qed.

(** With a positive [cpu_epsilon_cores], the pipeline
    [build_timeline], [align_timeline], [attribute], [export_per_service]
    raises only where [build_timeline] does. *)
Theorem run_pipeline_raises_only_in_build_timeline (a : Attributor) ps cs tl :
  0 < cpu_epsilon_cores a -> build_timeline a ps cs = Some tl ->
  exists out, run_pipeline a ps cs = Some out.
Proof.
  intros Heps H. unfold run_pipeline. rewrite H.
  destruct (align_some a tl (built_keys_parse _ _ _ _ H)) as [al ->].
  destruct (AttributeExtra.attribute_some a al Heps) as [out ->].
  eexists; reflexivity.
Qed.

(** A power-bearing timestamp that does not parse makes [align_timeline]
    raise as soon as one timestamp carries services, however far it is;
    so does a services-bearing timestamp that does not parse. *)
Theorem align_timeline_raises_on_unparsable_timestamp (a : Attributor) (tl : Timeline) :
  service_only tl <> [] ->
  (exists tp p, In (tp, p) (shelly_only tl) /\ ts_to_epoch tp = None) \/
  (exists t svcs, In (t, svcs) (service_only tl) /\ ts_to_epoch t = None) ->
  align_timeline a tl = None.
Proof.
  intros Hne [(tp & p & Hin & Hbad) | (t & svcs & Hin & Hbad)]; unfold align_timeline.
  - destruct (service_only tl) as [|x rest] eqn:Es; [contradiction|].
    apply (BuildFacts.fold_opt_fail_at _ [] x rest). intros acc.
    destruct x as [t svcs]. cbn [align_step].
    destruct (ts_to_epoch t) as [e|]; [|reflexivity].
    assert (Hn : forall cands best, In (tp, p) cands -> nearest_loop cands e best = None).
    { induction cands as [|[ts obj] cands IH]; intros best Hi; [destruct Hi|].
      cbn [nearest_loop]. destruct Hi as [E|Hi].
      - injection E as -> ->. rewrite Hbad. reflexivity.
      - destruct (ts_to_epoch ts); [apply IH; exact Hi|reflexivity]. }
    unfold nearest_by_time. rewrite (Hn _ None Hin). reflexivity.
  - apply in_split in Hin as (l1 & l2 & ->).
    apply BuildFacts.fold_opt_fail_at. intros acc. cbn [align_step].
    rewrite Hbad. reflexivity.
Qed.

End BuildExtra.

Module ExportExtra.
Import Timestamp Attribution.

Lemma d_set_Forall {A} (P : A -> Prop) k v (d : dict A) :
  Forall (fun p => P (snd p)) d -> P v -> Forall (fun p => P (snd p)) (d_set k v d).
Proof.
  induction d as [|[k0 v0] d IH]; intros Hd Hv; cbn [d_set].
  - constructor; [exact Hv|constructor].
  - inversion Hd as [|? ? H0 Hr]; subst.
    destruct (String.eqb k k0); constructor; auto.
Qed.

Lemma fold_left_invariant {A B} (P : A -> Prop) (f : A -> B -> A) :
  (forall acc x, P acc -> P (f acc x)) -> forall l acc, P acc -> P (fold_left f l acc).
Proof.
  intros Hf l. induction l as [|x l IH]; intros acc Hacc; cbn [fold_left]; auto.
Qed.

Lemma export_lists_nonempty (al : AlignedTimeline) :
  Forall (fun p => snd p <> []) (export_per_service al).
Proof.
  unfold export_per_service. apply fold_left_invariant; [|constructor].
  intros out [ts data] Hout. apply fold_left_invariant; [|exact Hout].
  intros out' [n s] Hout'. unfold append_reading.
  apply (d_set_Forall (fun l => l <> [])); [exact Hout'|].
  destruct (match d_lookup n out' with Some l => l | None => [] end); discriminate.
Qed.

(** [export_per_service] never stores an empty list: a service has an
    entry exactly when it appears at some attributed instant, and its
    entry is the list of its readings in timeline order. *)
Theorem export_per_service_entries (al : AlignedTimeline) (service : string) :
  match d_lookup service (export_per_service al) with
  | Some l => l <> [] /\ l = pivot service al
  | None => pivot service al = []
  end.
Proof.
  pose proof (export_get_acc_eq := ExportFacts.export_get_acc al service []).
  cbn [d_lookup app] in export_get_acc_eq. fold (export_per_service al) in export_get_acc_eq.
  destruct (d_lookup service (export_per_service al)) as [l|] eqn:E.
  - split; [|exact export_get_acc_eq].
    apply AlignFacts.d_lookup_In in E.
    exact (proj1 (Forall_forall _ _) (export_lists_nonempty al) _ E).
  - symmetry. exact export_get_acc_eq.
Qed.

End ExportExtra.

Module ResolverExtra.
Import Resolver.

(** The outcome of [_first_non_empty]: either every candidate was sent
    and passed over, and the result is the empty list; or the candidates
    sent are a prefix ending at the first one that raised or returned a
    non-empty list, and that call's exception or list is the outcome.
    In particular the resolver never returns a value that is not a list
    and never sends a query after a raising or successful one. *)
Theorem first_non_empty_outcome {S : Type}
    (range : string -> string -> string -> string -> call_outcome S)
    (qs : list string) (start end_ step : string) :
  let res := first_non_empty range qs start end_ step in
  (fst res = Ret (JList []) /\ snd res = qs /\
   Forall (fun q => skipped_candidate (range q start end_ step) = true) qs) \/
  (exists pre q rest,
     qs = pre ++ q :: rest /\ snd res = pre ++ [q] /\
     Forall (fun q => skipped_candidate (range q start end_ step) = true) pre /\
     ((exists e, range q start end_ step = Raised e /\ fst res = Exc e) \/
      (exists x xs, range q start end_ step = Returned (JList (x :: xs)) /\
                    fst res = Ret (JList (x :: xs))))).
Proof.
  induction qs as [|q qs IH]; cbn zeta in *.
  - left. repeat split; constructor.
  - cbn [first_non_empty].
    destruct (range q start end_ step) as [e|[[|x xs]|]] eqn:Eq.
    + right. exists [], q, qs. cbn. repeat split; [constructor|]. left. exists e; split; [exact Eq|reflexivity].
    + destruct (first_non_empty range qs start end_ step) as [r sent].
      cbn [fst snd] in *.
      destruct IH as [(Hr & Hs & Hall) | (pre & q' & rest & Hq & Hs & Hall & Hend)].
      * left. split; [exact Hr|]. split; [rewrite Hs; reflexivity|].
        constructor; [rewrite Eq; reflexivity|exact Hall].
      * right. exists (q :: pre), q', rest. cbn [app]. rewrite Hq, Hs.
        split; [reflexivity|]. split; [reflexivity|].
        split; [constructor; [rewrite Eq; reflexivity|exact Hall]|exact Hend].
    + right. exists [], q, qs. cbn. repeat split; [constructor|]. right.
      exists x, xs. split; [exact Eq|reflexivity].
    + destruct (first_non_empty range qs start end_ step) as [r sent].
      cbn [fst snd] in *.
      destruct IH as [(Hr & Hs & Hall) | (pre & q' & rest & Hq & Hs & Hall & Hend)].
      * left. split; [exact Hr|]. split; [rewrite Hs; reflexivity|].
        constructor; [rewrite Eq; reflexivity|exact Hall].
      * right. exists (q :: pre), q', rest. cbn [app]. rewrite Hq, Hs.
        split; [reflexivity|]. split; [reflexivity|].
        split; [constructor; [rewrite Eq; reflexivity|exact Hall]|exact Hend].
Qed.

End ResolverExtra.

Module CoreSeriesExtra.
Import Resolver CoreSeries.

Lemma not_written_queried {S : Type} p (v : json_result S) l :
  ~ In (Written p v) (map Queried l).
Proof. intros H. apply in_map_iff in H as (q & E & _). discriminate E. Qed.

Ltac no_write H :=
  repeat match type of H with
  | In _ (_ ++ _) => apply in_app_or in H; destruct H as [H|H]
  | In (Written _ _) (map Queried _) => exfalso; exact (not_written_queried _ _ _ H)
  | In _ [] => destruct H
  end.

Section CoreExport.

Context {S : Type}.
Variable range : string -> string -> string -> string -> call_outcome S.
Variable can_open : string -> bool.
Variables start_iso end_iso step : string.
Variable out_paths : Attribution.dict string.

Let fne qs := first_non_empty range qs start_iso end_iso step.

(** [export_core_series] opens no output file unless all three
    resolutions (requests, p95, CPU) returned: an exception in any of
    them leaves every file untouched. *)
Theorem export_core_series_writes_after_all_resolved st effs p v :
  export_core_series range can_open start_iso end_iso step out_paths = (st, effs) ->
  In (Written p v) effs ->
  exists v1 v2 v3,
    fst (fne req_candidates) = Ret v1 /\ fst (fne p95_candidates) = Ret v2 /\
    fst (fne cpu_candidates) = Ret v3.
Proof.
  unfold export_core_series, resolve, fne.
  destruct (first_non_empty range req_candidates start_iso end_iso step) as [[e1|v1] s1];
  destruct (first_non_empty range p95_candidates start_iso end_iso step) as [[e2|v2] s2];
  destruct (first_non_empty range cpu_candidates start_iso end_iso step) as [[e3|v3] s3];
  intros H Hin; try (exists v1, v2, v3; split; [reflexivity|split; reflexivity]);
  injection H as _ <-; no_write Hin.
Qed.

Lemma dump_to_completed k (v : json_result S) w :
  dump_to can_open out_paths k v = (Completed, w) ->
  exists p, Attribution.d_lookup k out_paths = Some p /\ can_open p = true /\ w = [Written p v].
Proof.
  unfold dump_to. destruct (Attribution.d_lookup k out_paths) as [p|]; [|discriminate].
  destruct (can_open p) eqn:E; [|discriminate].
  intros H; injection H as <-. exists p. auto.
Qed.

(** When [export_core_series] completes, it sent the queries of the three
    resolutions in the order requests, p95, CPU, and then wrote exactly
    three files, the requests series to [out_paths["requests"]], the p95
    series to [out_paths["p95"]] and the CPU series to
    [out_paths["cpu"]], in that order. *)
Theorem export_core_series_completed effs :
  export_core_series range can_open start_iso end_iso step out_paths = (Completed, effs) ->
  exists v1 v2 v3 p1 p2 p3,
    fst (fne req_candidates) = Ret v1 /\ fst (fne p95_candidates) = Ret v2 /\
    fst (fne cpu_candidates) = Ret v3 /\
    Attribution.d_lookup "requests" out_paths = Some p1 /\
    Attribution.d_lookup "p95" out_paths = Some p2 /\
    Attribution.d_lookup "cpu" out_paths = Some p3 /\
    effs = map Queried (snd (fne req_candidates)) ++ map Queried (snd (fne p95_candidates))
           ++ map Queried (snd (fne cpu_candidates))
           ++ [Written p1 v1; Written p2 v2; Written p3 v3].
Proof.
  unfold export_core_series, resolve, fne.
  destruct (first_non_empty range req_candidates start_iso end_iso step) as [[e1|v1] s1];
    [discriminate|].
  destruct (first_non_empty range p95_candidates start_iso end_iso step) as [[e2|v2] s2];
    [discriminate|].
  destruct (first_non_empty range cpu_candidates start_iso end_iso step) as [[e3|v3] s3];
    [discriminate|].
  destruct (dump_to can_open out_paths "requests" v1) as [[|e4] w1] eqn:D1; [|discriminate].
  destruct (dump_to can_open out_paths "p95" v2) as [[|e5] w2] eqn:D2; [|discriminate].
  destruct (dump_to can_open out_paths "cpu" v3) as [[|e6] w3] eqn:D3; [|discriminate].
  intros H; injection H as <-.
  destruct (dump_to_completed _ _ _ D1) as (p1 & L1 & _ & ->).
  destruct (dump_to_completed _ _ _ D2) as (p2 & L2 & _ & ->).
  destruct (dump_to_completed _ _ _ D3) as (p3 & L3 & _ & ->).
  exists v1, v2, v3, p1, p2, p3. cbn [fst snd]. repeat split; assumption.
Qed.

(** A missing [out_paths["p95"]] makes [export_core_series] raise
    [KeyError] only after the requests series has been written: the
    call fails but leaves a requests file behind. *)
Theorem export_core_series_missing_p95_path v1 v2 v3 p1 :
  fst (fne req_candidates) = Ret v1 -> fst (fne p95_candidates) = Ret v2 ->
  fst (fne cpu_candidates) = Ret v3 ->
  Attribution.d_lookup "requests" out_paths = Some p1 -> can_open p1 = true ->
  Attribution.d_lookup "p95" out_paths = None ->
  export_core_series range can_open start_iso end_iso step out_paths =
  (Failed "KeyError",
   map Queried (snd (fne req_candidates)) ++ map Queried (snd (fne p95_candidates))
   ++ map Queried (snd (fne cpu_candidates)) ++ [Written p1 v1]).
Proof.
  unfold export_core_series, resolve, fne.
  destruct (first_non_empty range req_candidates start_iso end_iso step) as [r1 s1].
  destruct (first_non_empty range p95_candidates start_iso end_iso step) as [r2 s2].
  destruct (first_non_empty range cpu_candidates start_iso end_iso step) as [r3 s3].
  cbn [fst snd]. intros -> -> -> L1 C1 L2.
  unfold dump_to. rewrite L1, C1, L2. reflexivity.
Qed.

End CoreExport.

End CoreSeriesExtra.

Module AdapterExtra.
Import Shelly AdapterLife.

Lemma list_ascii_of_string_app (s1 s2 : string) :
  list_ascii_of_string (s1 ++ s2) = list_ascii_of_string s1 ++ list_ascii_of_string s2.
Proof. induction s1 as [|c s1 IH]; cbn; [reflexivity|]. rewrite IH. reflexivity. Qed.

Lemma rstrip_slash_snoc u : rstrip_slash (u ++ "/") = rstrip_slash u.
Proof.
  unfold rstrip_slash. rewrite list_ascii_of_string_app. cbn [list_ascii_of_string].
  rewrite rev_app_distr. reflexivity.
Qed.

Lemma drop_slashes_head l r : drop_slashes l <> "/"%char :: r.
Proof.
  induction l as [|a l IH]; [discriminate|].
  destruct a as [[] [] [] [] [] [] [] []]; cbn [drop_slashes]; try discriminate; exact IH.
Qed.

Lemma rstrip_slash_no_trailing u p : rstrip_slash u <> (p ++ "/")%string.
Proof.
  unfold rstrip_slash. intros H.
  apply (f_equal list_ascii_of_string) in H.
  rewrite list_ascii_of_string_of_list_ascii, list_ascii_of_string_app in H.
  cbn [list_ascii_of_string] in H.
  apply (f_equal (@rev ascii)) in H. rewrite rev_involutive, rev_app_distr in H.
  exact (drop_slashes_head _ _ H).
Qed.

(** Both adapters strip trailing slashes from the base URL they are
    given: the stored base never ends in ["/"], and a base URL with one
    more trailing slash yields the same Shelly status URL and the same
    Prometheus [query_range] URL. *)
Theorem adapter_urls_ignore_trailing_slash (u : string) (t : Q) (sid : Z)
    (au : option (string * string)) :
  status_url (init (u ++ "/") t sid au) = status_url (init u t sid au) /\
  query_range_url (prometheus_init (u ++ "/") t) = query_range_url (prometheus_init u t) /\
  (forall p, base_url (init u t sid au) <> (p ++ "/")%string) /\
  (forall p, base (prometheus_init u t) <> (p ++ "/")%string).
Proof.
  unfold status_url, query_range_url, init, prometheus_init. cbn [base_url base].
  rewrite rstrip_slash_snoc.
  split; [reflexivity|]. split; [reflexivity|].
  split; intros p; apply rstrip_slash_no_trailing.
Qed.

(** The adapter invariant: a sampler thread is recorded exactly when the
    run flag is set. *)
Definition thr_matches_run (a : ShellyAdapter) : Prop :=
  match thr a with Some _ => run a = true | None => run a = false end.

Lemma run_calls_held_thread calls : forall a next,
  thr_matches_run a ->
  let '(a', evs) := run_calls a next calls in
  held_thread (thr a) evs = Some (thr a') /\ thr_matches_run a'.
Proof.
  induction calls as [|[p h|] calls IH]; intros a next Ha; cbn [run_calls].
  - split; [reflexivity|exact Ha].
  - unfold start. destruct (run a) eqn:Er.
    + specialize (IH a (S next) Ha).
      destruct (run_calls a (S next) calls) as [a'' ev'] eqn:E. exact IH.
    + assert (Ht : thr a = None).
      { unfold thr_matches_run in Ha. destruct (thr a); [congruence|reflexivity]. }
      set (a1 := mkAdapter (base_url a) (timeout a) (switch_id a) (auth a)
                           (Some (mkThread next)) true (Some p) h).
      assert (H1 : thr_matches_run a1) by reflexivity.
      specialize (IH a1 (S next) H1).
      destruct (run_calls a1 (S next) calls) as [a'' ev'] eqn:E.
      destruct IH as [IHb IHi]. split; [|exact IHi].
      rewrite Ht. cbn [app held_thread]. exact IHb.
  - unfold stop. destruct (run a) eqn:Er; cbn [negb].
    + unfold thr_matches_run in Ha. cbn [thr set_run].
      destruct (thr a) as [t|] eqn:Ht; [|congruence].
      set (a1 := set_thr None (set_run false a)).
      assert (H1 : thr_matches_run a1) by reflexivity.
      specialize (IH a1 next H1).
      destruct (run_calls a1 next calls) as [a'' ev'] eqn:E.
      destruct IH as [IHb IHi]. split; [|exact IHi].
      cbn [map of_stop_event app held_thread]. rewrite Nat.eqb_refl. exact IHb.
    + specialize (IH a next Ha).
      destruct (run_calls a next calls) as [a'' ev'] eqn:E. exact IH.
Qed.

(** Whatever sequence of [start] and [stop] calls follows the
    construction of a [ShellyAdapter], the adapter holds at most one
    sampler thread: each thread is created and started only when none is
    held, each join is on the thread held, which [stop] then drops, and
    at the end [_thr] is the thread still held, set exactly when [_run]
    is.  (A joined thread may outlive its join's timeout.) *)
Theorem adapter_calls_hold_one_sampler (u : string) (t : Q) (sid : Z)
    (au : option (string * string)) (next : nat) (calls : list call) :
  let '(a', evs) := run_calls (init u t sid au) next calls in
  held_thread None evs = Some (thr a') /\ (run a' = true <-> thr a' <> None).
Proof.
  pose proof (run_calls_held_thread calls (init u t sid au) next eq_refl) as H.
  destruct (run_calls (init u t sid au) next calls) as [a' evs].
  destruct H as [Hb Hi]. split; [exact Hb|].
  unfold thr_matches_run in Hi. destruct (thr a'); split; congruence.
Qed.

End AdapterExtra.

Module ShellyRecordsExtra.
Import Timestamp ShellyRecords.
Local Open Scope string_scope.

Lemma read_once_shape pf now d r :
  read_once pf now (Some (JObj d)) = Some r ->
  exists pw rest,
    r = ("ts", JStr (now_ts now)) :: ("power_w", JNum pw)
          :: ("voltage_V", get d "voltage" JNull) :: rest /\
    py_float pf (get d "apower" (JNum 0)) = Some pw /\
    (rest = [] \/ exists e, rest = [("energy_total_Wh", JNum e)])%string.
Proof.
  cbn [read_once]. destruct (py_float pf (get d "apower" (JNum 0))) as [pw|] eqn:Ep;
    [|discriminate].
  cbn zeta. intros H. exists pw.
  destruct (get d "aenergy" JNull) as [| | | | |ae];
    try (injection H as <-; exists []; split; [reflexivity|split; [reflexivity|left; reflexivity]]).
  destruct (Attribution.d_lookup "total" ae) as [tv|];
    [|injection H as <-; exists []; split; [reflexivity|split; [reflexivity|left; reflexivity]]].
  destruct (py_float pf tv) as [e|]; [|discriminate].
  injection H as <-. eexists. split; [reflexivity|]. split; [reflexivity|].
  right. exists e. reflexivity.
Qed.

(** A record [_read_once] returns starts with the keys [ts], [power_w],
    [voltage_V], possibly followed by [energy_total_Wh] alone; for a
    valid UTC clock its [ts] is already in the canonical form
    [normalize_ts] produces, and [power_w] is [0] when the device's
    status has no [apower]. *)
Theorem read_once_record_shape (parse_float : string -> option Q) (now : datetime)
    (d : list (string * json)) (r : list (string * json)) :
  valid_date (year now) (month now) (day now) = true ->
  valid_time (hour now) (minute now) (second now) (microsecond now) = true ->
  tzoff now = Some 0%Z ->
  read_once parse_float now (Some (JObj d)) = Some r ->
  exists k pw rest,
    r = ("ts", JStr k) :: ("power_w", JNum pw)
          :: ("voltage_V", get d "voltage" JNull) :: rest /\
    normalize_ts k = Some k /\
    (Attribution.d_lookup "apower" d = None -> pw = 0%Q) /\
    (rest = [] \/ exists e, rest = [("energy_total_Wh", JNum e)])%string.
Proof.
  intros Hd Ht Hz H.
  destruct (read_once_shape _ _ _ _ H) as (pw & rest & -> & Hpw & Hrest).
  exists (now_ts now), pw, rest. split; [reflexivity|]. split.
  - apply TimestampExtra.canonical_normalize.
    apply TimestampExtra.canonical_drop_microsecond; assumption.
  - split; [|exact Hrest].
    intros Ha. unfold get in Hpw. rewrite Ha in Hpw. injection Hpw as <-. reflexivity.
Qed.

(** The loader's filter [("ts" in rec and "power_w" in rec)] on a record
    written by [_loop]: [ts] is always there, and [power_w] is there
    exactly when [_read_once] returned; error records are dropped by the
    runner, successful readings kept. *)
Theorem loop_record_kept_iff_read (parse_float : string -> option Q) (now now' : datetime)
    (resp : option json) (err : string) :
  let r := loop_record parse_float now now' resp err in
  contains "ts" (JObj r) = Some true /\
  contains "power_w" (JObj r) =
    Some (match read_once parse_float now resp with Some _ => true | None => false end).
Proof.
  unfold loop_record.
  destruct (read_once parse_float now resp) as [r|] eqn:E; [|split; reflexivity].
  destruct resp as [[| | | | |d]|]; try discriminate.
  destruct (read_once_shape _ _ _ _ E) as (pw & rest & -> & _ & _).
  split; reflexivity.
Qed.

Definition has_key (k : string) (d : list (string * json)) : bool :=
  match Attribution.d_lookup k d with Some _ => true | None => false end.

(** When every line of the file is either unparsable or a JSON object,
    [load_shelly_jsonl] never raises: it skips the unparsable lines and
    keeps, in file order, exactly the objects that have both [ts] and
    [power_w]. *)
Theorem load_shelly_jsonl_objects (loads : string -> option json) (lines : list string) :
  (forall line, In line lines ->
     match loads line with Some (JObj _) | None => True | Some _ => False end) ->
  load_shelly_jsonl loads lines =
  Some (flat_map (fun line => match loads line with
                              | Some (JObj d) =>
                                  if has_key "ts" d && has_key "power_w" d
                                  then [JObj d] else []
                              | _ => []
                              end) lines).
Proof.
  induction lines as [|line lines IH]; intros Hall; [reflexivity|].
  cbn [load_shelly_jsonl flat_map].
  assert (IH' := IH (fun l Hl => Hall l (or_intror Hl))).
  specialize (Hall line (or_introl eq_refl)).
  destruct (loads line) as [[| | | | |d]|]; try contradiction; [|exact IH'].
  cbn [contains]. rewrite IH'. unfold has_key.
  destruct (Attribution.d_lookup "ts" d); destruct (Attribution.d_lookup "power_w" d);
    reflexivity.
Qed.

(** A line that parses to a JSON number, boolean or [null] makes
    [load_shelly_jsonl] raise [TypeError] ([in] on a scalar), wherever it
    is in the file: the loader does not skip it as it skips unparsable
    lines. *)
Theorem load_shelly_jsonl_scalar_line_raises (loads : string -> option json)
    (pre post : list string) (line : string) :
  (loads line = Some JNull \/ (exists b, loads line = Some (JBool b)) \/
   (exists q, loads line = Some (JNum q))) ->
  load_shelly_jsonl loads (pre ++ line :: post)%list = None.
Proof.
  intros Hl. induction pre as [|l pre IH]; cbn [app load_shelly_jsonl].
  - destruct Hl as [E|[[b E]|[q E]]]; rewrite E; reflexivity.
  - rewrite IH. destruct (loads l) as [r|]; [|reflexivity].
    destruct (contains "ts" r) as [[]|]; cbn; [|reflexivity|reflexivity].
    destruct (contains "power_w" r); reflexivity.
Qed.

End ShellyRecordsExtra.

Module RunnerExtra.
Import Timestamp Attribution Runner.
Open Scope Q_scope.

Lemma d_set_Forall_pair {A} (P : string -> A -> Prop) k v (d : dict A) :
  Forall (fun p => P (fst p) (snd p)) d -> P k v ->
  Forall (fun p => P (fst p) (snd p)) (d_set k v d).
Proof.
  induction d as [|[k0 v0] d IH]; intros Hd Hv; cbn [d_set].
  - constructor; [exact Hv|constructor].
  - inversion Hd as [|? ? H0 Hr]; subst.
    destruct (String.eqb k k0) eqn:E; constructor; auto.
    apply String.eqb_eq in E. subst k0. exact Hv.
Qed.

Lemma clean_samples_full h samples :
  Forall (fun c => exists t co p, c = mkCpuSample (Some t) (Some co) (Some p))
         (clean_samples h samples).
Proof.
  apply Forall_forall. intros c Hin. unfold clean_samples in Hin.
  apply in_flat_map in Hin as (s & _ & Hc).
  destruct (clean_sample h s) as [c'|] eqn:E; [|destruct Hc].
  destruct Hc as [<-|[]]. unfold clean_sample in E.
  destruct (r_ts s) as [t|]; [|discriminate].
  destruct (r_cpu_cores_used s) as [co|]; [|destruct (r_cpu_percent_host s) as [p|]];
    try discriminate; injection E as <-; eexists _, _, _; reflexivity.
Qed.

Definition loaded_entry (raw : dict (list RawCpuSample)) (h : Z)
    (svc : string) (l : list CpuSample) : Prop :=
  l <> [] /\ exists samples, In (svc, samples) raw /\ l = clean_samples h samples.

Lemma load_fold_entries raw h : forall l out,
  incl l raw ->
  Forall (fun p => loaded_entry raw h (fst p) (snd p)) out ->
  Forall (fun p => loaded_entry raw h (fst p) (snd p))
    (fold_left (fun out '(service, samples) =>
                  match clean_samples h samples with
                  | [] => out
                  | clean => d_set service clean out
                  end) l out).
Proof.
  induction l as [|[svc samples] l IH]; intros out Hincl Hout; cbn [fold_left]; [exact Hout|].
  apply IH; [intros x Hx; apply Hincl; right; exact Hx|].
  destruct (clean_samples h samples) as [|c cl] eqn:E; [exact Hout|].
  apply (d_set_Forall_pair (loaded_entry raw h)); [exact Hout|].
  split; [discriminate|]. exists samples. split; [apply Hincl; left; reflexivity|].
  symmetry. exact E.
Qed.

(** Every list [load_cadvisor_json] returns for a service is non-empty,
    is the cleaned form of the samples the file lists under that service,
    and holds only samples with [ts], [cpu_cores_used] and
    [cpu_percent_host] all set. *)
Theorem load_cadvisor_json_entries (raw : dict (list RawCpuSample)) (host_cpu_cores : Z)
    (service : string) (l : list CpuSample) :
  d_lookup service (load_cadvisor_json raw host_cpu_cores) = Some l ->
  l <> [] /\
  (exists samples, In (service, samples) raw /\ l = clean_samples host_cpu_cores samples) /\
  Forall (fun c => exists t co p, c = mkCpuSample (Some t) (Some co) (Some p)) l.
Proof.
  intros H. apply AlignFacts.d_lookup_In in H.
  assert (Hall := load_fold_entries raw host_cpu_cores raw [] (incl_refl raw) (Forall_nil _)).
  fold (load_cadvisor_json raw host_cpu_cores) in Hall.
  assert (He := proj1 (Forall_forall _ _) Hall _ H). cbn [fst snd] in He.
  destruct He as [Hne (samples & Hin & ->)].
  split; [exact Hne|]. split; [exists samples; split; [exact Hin|reflexivity]|].
  apply clean_samples_full.
Qed.

Lemma add_one_hour_valid dt dt' :
  valid_date (year dt) (month dt) (day dt) = true ->
  valid_time (hour dt) (minute dt) (second dt) (microsecond dt) = true ->
  add_one_hour dt = Some dt' ->
  valid_date (year dt') (month dt') (day dt') = true /\
  valid_time (hour dt') (minute dt') (second dt') 0 = true.
Proof.
  intros Hd Ht. assert (Hd' := Hd); assert (Ht' := Ht).
  unfold valid_date in Hd'; unfold valid_time in Ht'. TimestampFacts.bool_prop.
  unfold add_one_hour.
  set (sod := (hour dt * 3600 + minute dt * 60 + second dt + 3600)%Z).
  assert (Hs : (0 <= sod mod 86400 < 86400)%Z) by (apply Z.mod_pos_bound; lia).
  assert (Htm : valid_time ((sod mod 86400) / 3600) (((sod mod 86400) mod 3600) / 60)
                           ((sod mod 86400) mod 60) 0 = true).
  { unfold valid_time.
    assert (Hq1 : (0 <= (sod mod 86400) mod 3600 < 3600)%Z) by (apply Z.mod_pos_bound; lia).
    assert (Hq2 : (0 <= (sod mod 86400) mod 60 < 60)%Z) by (apply Z.mod_pos_bound; lia).
    assert (Hq3 : (0 <= (sod mod 86400) / 3600 <= 23)%Z).
    { split; [apply Z.div_pos; lia|]. apply Z.lt_succ_r. apply Z.div_lt_upper_bound; lia. }
    assert (Hq4 : (0 <= ((sod mod 86400) mod 3600) / 60 <= 59)%Z).
    { split; [apply Z.div_pos; lia|]. apply Z.lt_succ_r. apply Z.div_lt_upper_bound; lia. }
    TimestampFacts.valid_goal; lia. }
  destruct (sod <? 86400)%Z eqn:Esod.
  - destruct (year dt <=? 9999)%Z; [|discriminate].
    intros E; injection E as <-. cbn [year month day hour minute second]. auto.
  - destruct (next_day (year dt) (month dt) (day dt)) as [[y m] d] eqn:En.
    assert (Hy : (year dt <= y <= year dt + 1)%Z).
    { unfold next_day in En.
      destruct (day dt <? days_in_month (year dt) (month dt));
        [|destruct (month dt <? 12)]; injection En as <- _ _; lia. }
    destruct (y <=? 9999)%Z eqn:Ey; [|discriminate]. TimestampFacts.bool_prop.
    intros E; injection E as <-. cbn [year month day hour minute second].
    split; [|exact Htm]. eapply TimestampFacts.next_day_valid; [exact Hd|exact En|lia].
Qed.

(** [normalize_shelly_timestamp] produces timestamps in the canonical
    form of the pipeline: whenever it returns, its result is a fixed point
    of [normalize_ts]. *)
Theorem normalize_shelly_timestamp_canonical (ts k : string) :
  normalize_shelly_timestamp ts = Some k -> normalize_ts k = Some k.
Proof.
  unfold normalize_shelly_timestamp.
  destruct (fromisoformat (list_ascii_of_string ts)) as [dt|] eqn:E1; [|discriminate].
  destruct (add_one_hour dt) as [dt'|] eqn:E2; [|discriminate].
  rewrite TimestampFacts.isoformat_utc_seconds, string_of_list_ascii_of_string.
  intros H. apply (f_equal (fun o => match o with Some x => x | None => k end)) in H.
  cbv beta iota in H. subst k.
  destruct (TimestampFacts.fromisoformat_valid _ _ E1) as (Hd & Ht & _).
  destruct (add_one_hour_valid _ _ Hd Ht E2) as [Hd' Ht'].
  apply TimestampExtra.normalize_iso; assumption.
Qed.

(** [normalize_shelly_timestamp] reads only the wall-clock fields of its
    input: two timestamps that differ only in their UTC offset (or its
    absence) or in their fraction of a second are normalized to the same
    string; the offset is replaced by [+00:00], not converted. *)
Theorem normalize_shelly_timestamp_ignores_offset (ts1 ts2 : string) (dt1 dt2 : datetime) :
  fromisoformat (list_ascii_of_string ts1) = Some dt1 ->
  fromisoformat (list_ascii_of_string ts2) = Some dt2 ->
  year dt1 = year dt2 -> month dt1 = month dt2 -> day dt1 = day dt2 ->
  hour dt1 = hour dt2 -> minute dt1 = minute dt2 -> second dt1 = second dt2 ->
  normalize_shelly_timestamp ts1 = normalize_shelly_timestamp ts2.
Proof.
  intros E1 E2 Hy Hm Hd Hh Hmi Hs. unfold normalize_shelly_timestamp.
  rewrite E1, E2. unfold add_one_hour. rewrite Hy, Hm, Hd, Hh, Hmi, Hs.
  destruct (if (hour dt2 * 3600 + minute dt2 * 60 + second dt2 + 3600 <? 86400)%Z
            then (year dt2, month dt2, day dt2)
            else next_day (year dt2) (month dt2) (day dt2)) as [[y m] d].
  destruct (y <=? 9999)%Z; reflexivity.
Qed.

End RunnerExtra.

Module DurationExtra.
Import Timestamp Duration.
Open Scope Z_scope.










(** The characters [int] accepts around and inside a number. *)
Definition int_char (c : ascii) : bool :=
  is_py_space c || is_digit c || Ascii.eqb c "_" || Ascii.eqb c "+" || Ascii.eqb c "-".

Lemma lstrip_split l :
  exists pre, l = pre ++ lstrip l /\ Forall (fun c => is_py_space c = true) pre.
Proof.
  induction l as [|c l IH]; [exists []; split; [reflexivity|constructor]|].
  cbn [lstrip]. destruct (is_py_space c) eqn:E.
  - destruct IH as (pre & Hl & Hp). exists (c :: pre).
    split; [cbn; rewrite <- Hl; reflexivity|constructor; assumption].
  - exists []. split; [reflexivity|constructor].
Qed.

Lemma strip_split l :
  exists pre post, l = pre ++ strip l ++ post /\
    Forall (fun c => is_py_space c = true) pre /\ Forall (fun c => is_py_space c = true) post.
Proof.
  destruct (lstrip_split l) as (pre & H1 & Hp).
  destruct (lstrip_split (rev (lstrip l))) as (pre2 & H2 & Hp2).
  exists pre, (rev pre2). unfold strip. split; [|split; [exact Hp|apply Forall_rev; exact Hp2]].
  rewrite H1 at 1. f_equal.
  apply (f_equal (@rev ascii)) in H2. rewrite rev_involutive, rev_app_distr in H2. exact H2.
Qed.

Lemma digits_loop_chars n : forall l acc v, (List.length l <= n)%nat ->
  digits_loop l acc = Some v -> Forall (fun c => is_digit c || Ascii.eqb c "_" = true) l.
Proof.
  induction n as [|n IH]; intros l acc v Hlen H.
  - destruct l; [constructor|cbn in Hlen; lia].
  - destruct l as [|c l]; [constructor|]. cbn [digits_loop] in H. cbn [List.length] in Hlen.
    destruct (digit c) as [d|] eqn:E.
    + constructor; [unfold is_digit; rewrite E; reflexivity|].
      apply (IH l (acc * 10 + d) v); [lia|exact H].
    + destruct (Ascii.eqb c "_") eqn:U; [|discriminate].
      destruct l as [|c' l']; [discriminate|].
      destruct (digit c') as [d|] eqn:E'; [|discriminate].
      constructor; [rewrite U, orb_true_r; reflexivity|].
      constructor; [unfold is_digit; rewrite E'; reflexivity|].
      cbn [List.length] in Hlen. apply (IH l' (acc * 10 + d) v); [lia|exact H].
Qed.

Lemma digits_chars l v :
  digits l = Some v -> Forall (fun c => is_digit c || Ascii.eqb c "_" = true) l.
Proof.
  destruct l as [|c l]; cbn [digits]; [discriminate|].
  destruct (digit c) as [d|] eqn:E; [|discriminate]. intros H.
  constructor; [unfold is_digit; rewrite E; reflexivity|].
  exact (digits_loop_chars (List.length l) l d v (le_n _) H).
Qed.

Lemma int_char_of_digit c : is_digit c || Ascii.eqb c "_" = true -> int_char c = true.
Proof.
  unfold int_char. intros H. apply orb_true_iff in H as [H|H]; rewrite H;
    rewrite ?orb_true_r; reflexivity.
Qed.

Lemma py_int_chars s z :
  py_int s = Some z -> Forall (fun c => int_char c = true) (list_ascii_of_string s).
Proof.
  unfold py_int. destruct (strip_split (list_ascii_of_string s)) as (pre & post & Hl & Hp & Hq).
  remember (strip (list_ascii_of_string s)) as m eqn:Em. intros H. rewrite Hl.
  assert (Hsp : forall l, Forall (fun c => is_py_space c = true) l ->
                          Forall (fun c => int_char c = true) l).
  { intros l. apply Forall_impl. intros c Hc. unfold int_char. rewrite Hc. reflexivity. }
  apply Forall_app; split; [apply Hsp; exact Hp|]. apply Forall_app; split; [|apply Hsp; exact Hq].
  destruct m as [|c r]; [discriminate|].
  assert (Hd : forall l v, digits l = Some v -> Forall (fun c => int_char c = true) l).
  { intros l v Hv. eapply Forall_impl; [|exact (digits_chars l v Hv)]. apply int_char_of_digit. }
  destruct (Ascii.eqb c "-") eqn:E1.
  - destruct (digits r) as [v|] eqn:Ev; [|discriminate].
    constructor; [|exact (Hd r v Ev)].
    unfold int_char. rewrite E1, !orb_true_r. reflexivity.
  - destruct (Ascii.eqb c "+") eqn:E2.
    + constructor; [|exact (Hd r z H)].
      unfold int_char. rewrite E2. rewrite orb_true_r. cbn [orb]. reflexivity.
    + exact (Hd _ z H).
Qed.

Lemma parse_duration_chars rt n :
  parse_duration rt = Some n ->
  exists body u, list_ascii_of_string rt = body ++ [u] /\
                 Forall (fun c => int_char c = true) body.
Proof.
  unfold parse_duration.
  destruct (rev (list_ascii_of_string rt)) as [|u r] eqn:E; [discriminate|].
  intros H. exists (rev r), u. split.
  - apply (f_equal (@rev ascii)) in E. rewrite rev_involutive in E. exact E.
  - rewrite <- (list_ascii_of_string_of_list_ascii (rev r)).
    destruct (Ascii.eqb u "s"); [exact (py_int_chars _ _ H)|].
    destruct (Ascii.eqb u "m").
    + destruct (py_int (string_of_list_ascii (rev r))) eqn:Ep; [|discriminate].
      exact (py_int_chars _ _ Ep).
    + destruct (Ascii.eqb u "h"); [|discriminate].
      destruct (py_int (string_of_list_ascii (rev r))) eqn:Ep; [|discriminate].
      exact (py_int_chars _ _ Ep).
Qed.

(** [parse_duration] raises [ValueError] as soon as the text before the
    last character holds a character that is neither whitespace, a digit,
    an underscore nor a sign: fractional counts such as ["1.5h"] and
    other units such as ["10ms"] (read as [int("10m")]) are refused. *)
Theorem parse_duration_rejects_non_integer_counts (a b : string) (c u : ascii) :
  int_char c = false ->
  parse_duration (a ++ String c (b ++ String u EmptyString)) = None.
Proof.
  intros Hc. destruct (parse_duration _) as [n|] eqn:E; [exfalso|reflexivity].
  apply parse_duration_chars in E as (body & u' & Hl & Hf).
  rewrite AdapterExtra.list_ascii_of_string_app in Hl. cbn [list_ascii_of_string] in Hl.
  rewrite AdapterExtra.list_ascii_of_string_app in Hl. cbn [list_ascii_of_string] in Hl.
  rewrite app_comm_cons, app_assoc in Hl. apply app_inj_tail in Hl as [<- _].
  apply Forall_app in Hf as [_ Hf]. inversion Hf as [|? ? Hc' _]; subst.
  rewrite Hc in Hc'. discriminate.
Qed.

End DurationExtra.

Module EpochExtra.
Import Timestamp.
Open Scope Z_scope.

Lemma days_before_year_succ y :
  days_before_year (y + 1) = days_before_year y + 365 + (if is_leap y then 1 else 0).
Proof.
  unfold days_before_year, is_leap. replace (y + 1 - 1) with y by lia.
  pose proof (Z.div_mod y 4 ltac:(lia)). pose proof (Z.mod_pos_bound y 4 ltac:(lia)).
  pose proof (Z.div_mod y 100 ltac:(lia)). pose proof (Z.mod_pos_bound y 100 ltac:(lia)).
  pose proof (Z.div_mod y 400 ltac:(lia)). pose proof (Z.mod_pos_bound y 400 ltac:(lia)).
  pose proof (Z.div_mod (y - 1) 4 ltac:(lia)). pose proof (Z.mod_pos_bound (y - 1) 4 ltac:(lia)).
  pose proof (Z.div_mod (y - 1) 100 ltac:(lia)). pose proof (Z.mod_pos_bound (y - 1) 100 ltac:(lia)).
  pose proof (Z.div_mod (y - 1) 400 ltac:(lia)). pose proof (Z.mod_pos_bound (y - 1) 400 ltac:(lia)).
  destruct (y mod 4 =? 0) eqn:E4; destruct (y mod 100 =? 0) eqn:E100;
    destruct (y mod 400 =? 0) eqn:E400; cbn [andb orb negb];
    TimestampFacts.bool_prop; lia.
Qed.

Lemma days_before_month_succ y m :
  1 <= m <= 11 -> days_before_month y (m + 1) = days_before_month y m + days_in_month y m.
Proof.
  intros Hm.
  assert (m = 1 \/ m = 2 \/ m = 3 \/ m = 4 \/ m = 5 \/ m = 6 \/ m = 7 \/ m = 8 \/ m = 9
          \/ m = 10 \/ m = 11) as Hc by lia.
  unfold days_before_month, days_in_month.
  repeat destruct Hc as [-> | Hc]; try (subst m); cbn; destruct (is_leap y); reflexivity.
Qed.

Lemma days_before_month_1 y : days_before_month y 1 = 0.
Proof. reflexivity. Qed.

Lemma days_before_month_12 y :
  days_before_month y 12 = 334 + (if is_leap y then 1 else 0).
Proof. unfold days_before_month, days_in_month. cbn. destruct (is_leap y); reflexivity. Qed.

Lemma toordinal_next y m d y' m' d' :
  valid_date y m d = true -> next_day y m d = (y', m', d') ->
  toordinal y' m' d' = toordinal y m d + 1.
Proof.
  intros Hv Hn. unfold valid_date in Hv. TimestampFacts.bool_prop. unfold next_day in Hn.
  unfold toordinal.
  destruct (d <? days_in_month y m) eqn:E1; TimestampFacts.bool_prop.
  - injection Hn as <- <- <-. lia.
  - destruct (m <? 12) eqn:E2; TimestampFacts.bool_prop.
    + injection Hn as <- <- <-. rewrite days_before_month_succ by lia. lia.
    + injection Hn as <- <- <-. assert (m = 12) by lia. subst m.
      rewrite TimestampFacts.days_in_month_12 in *.
      rewrite days_before_year_succ, days_before_month_1, days_before_month_12. lia.
Qed.

Lemma toordinal_prev y m d y' m' d' :
  valid_date y m d = true -> prev_day y m d = (y', m', d') ->
  toordinal y' m' d' = toordinal y m d - 1.
Proof.
  intros Hv Hn. unfold valid_date in Hv. TimestampFacts.bool_prop. unfold prev_day in Hn.
  unfold toordinal.
  destruct (1 <? d) eqn:E1; TimestampFacts.bool_prop.
  - injection Hn as <- <- <-. lia.
  - destruct (1 <? m) eqn:E2; TimestampFacts.bool_prop.
    + injection Hn as <- <- <-. assert (d = 1) by lia. subst d.
      pose proof (days_before_month_succ y (m - 1) ltac:(lia)) as Hs.
      replace (m - 1 + 1) with m in Hs by lia. lia.
    + injection Hn as <- <- <-. assert (m = 1) by lia. assert (d = 1) by lia. subst m d.
      pose proof (days_before_year_succ (y - 1)) as Hy. replace (y - 1 + 1) with y in Hy by lia.
      rewrite Hy, days_before_month_1, days_before_month_12. lia.
Qed.

Lemma hms_recompose t :
  0 <= t -> t / 3600 * 3600 + (t mod 3600) / 60 * 60 + t mod 60 = t.
Proof.
  intros Ht.
  pose proof (Z.div_mod t 3600 ltac:(lia)). pose proof (Z.mod_pos_bound t 3600 ltac:(lia)).
  pose proof (Z.div_mod (t mod 3600) 60 ltac:(lia)).
  pose proof (Z.mod_pos_bound (t mod 3600) 60 ltac:(lia)).
  pose proof (Z.div_mod t 60 ltac:(lia)). pose proof (Z.mod_pos_bound t 60 ltac:(lia)).
  lia.
Qed.

(** The numerator of [ts_to_epoch] of a datetime: its distance from the
    epoch in microseconds. *)
Definition epoch_us (dt : datetime) : Z :=
  ((toordinal (year dt) (month dt) (day dt) - 719163) * 86400
   + hour dt * 3600 + minute dt * 60 + second dt) * 1000000
  + microsecond dt - match tzoff dt with Some o => o | None => 0 end.

Lemma to_utc_epoch dt u :
  valid_date (year dt) (month dt) (day dt) = true ->
  valid_time (hour dt) (minute dt) (second dt) (microsecond dt) = true ->
  (forall off, tzoff dt = Some off -> Z.abs off < 86400000000) ->
  to_utc dt = Some u ->
  epoch_us u = epoch_us dt.
Proof.
  intros Hd Ht Hoff. unfold to_utc.
  destruct (tzoff dt) as [off|] eqn:Ez.
  - specialize (Hoff off eq_refl). unfold astimezone_utc.
    assert (Ht' := Ht). unfold valid_time in Ht'. TimestampFacts.bool_prop.
    set (t := (hour dt * 3600 + minute dt * 60 + second dt) * 1000000
              + microsecond dt - off).
    pose proof (Z.div_mod t 86400000000 ltac:(lia)).
    pose proof (Z.mod_pos_bound t 86400000000 ltac:(lia)).
    assert (Hc : -1 <= t / 86400000000 <= 1).
    { split.
      - apply Z.div_le_lower_bound; lia.
      - apply Z.lt_succ_r. apply Z.div_lt_upper_bound; lia. }
    destruct (if t / 86400000000 =? 0 then (year dt, month dt, day dt)
              else if 0 <? t / 86400000000 then next_day (year dt) (month dt) (day dt)
                   else prev_day (year dt) (month dt) (day dt)) as [[y m] d] eqn:Edate.
    destruct ((1 <=? y) && (y <=? 9999))%bool; [|discriminate].
    intros E; injection E as <-.
    unfold epoch_us. cbn [year month day hour minute second microsecond tzoff]. rewrite Ez.
    set (t' := t mod 86400000000) in *.
    pose proof (Z.div_mod t' 1000000 ltac:(lia)).
    assert (0 <= t' / 1000000) by (apply Z.div_pos; lia).
    pose proof (hms_recompose (t' / 1000000) ltac:(lia)) as Hr.
    assert (Ho : toordinal y m d = toordinal (year dt) (month dt) (day dt) + t / 86400000000).
    { destruct (t / 86400000000 =? 0) eqn:C0; TimestampFacts.bool_prop.
      - injection Edate as <- <- <-. lia.
      - destruct (0 <? t / 86400000000) eqn:C1; TimestampFacts.bool_prop.
        + rewrite (toordinal_next _ _ _ _ _ _ Hd Edate). lia.
        + rewrite (toordinal_prev _ _ _ _ _ _ Hd Edate). lia. }
    rewrite Ho. fold t. lia.
  - intros E; injection E as <-.
    unfold epoch_us. cbn [year month day hour minute second microsecond tzoff]. rewrite Ez. lia.
Qed.

(** [normalize_ts] keeps the instant: [ts_to_epoch] of the normalized
    timestamp is [ts_to_epoch] of the input rounded down to the whole
    second; only the sub-second part of the instant is dropped, whatever
    the input's UTC offset. *)
Theorem normalize_ts_keeps_instant (x y : string) :
  normalize_ts x = Some y ->
  exists (z us : Z),
    ts_to_epoch x = Some (Qmake (z * 1000000 + us) 1000000) /\
    ts_to_epoch y = Some (Qmake (z * 1000000) 1000000) /\
    0 <= us <= 999999.
Proof.
  unfold normalize_ts.
  destruct (fromisoformat (list_ascii_of_string x)) as [dt|] eqn:E1; [|discriminate].
  destruct (to_utc dt) as [u|] eqn:E2; [|discriminate].
  intros H. apply (f_equal (fun o => match o with Some v => v | None => y end)) in H.
  cbv beta iota in H. subst y.
  destruct (TimestampFacts.fromisoformat_valid _ _ E1) as (Hd & Ht & Hoff).
  destruct (TimestampFacts.to_utc_valid dt u Hd Ht Hoff E2) as (Hud & Hut & Hutz).
  pose proof (to_utc_epoch dt u Hd Ht Hoff E2) as He.
  assert (Hut0 : valid_time (hour u) (minute u) (second u) 0 = true).
  { unfold valid_time in *. TimestampFacts.bool_prop. TimestampFacts.valid_goal. lia. }
  exists ((toordinal (year u) (month u) (day u) - 719163) * 86400
          + hour u * 3600 + minute u * 60 + second u), (microsecond u).
  split; [|split].
  - unfold epoch_us in He. rewrite Hutz in He.
    unfold ts_to_epoch. rewrite E1. cbv beta iota zeta. do 2 f_equal. lia.
  - unfold drop_microsecond. rewrite Hutz, TimestampFacts.isoformat_utc_seconds,
      string_of_list_ascii_of_string.
    unfold ts_to_epoch. rewrite TimestampFacts.fromisoformat_utc_seconds by assumption.
    cbn [year month day hour minute second microsecond tzoff]. do 2 f_equal. lia.
  - unfold valid_time in Hut. TimestampFacts.bool_prop. lia.
Qed.

End EpochExtra.

(* ================================================================== *)
(** * Instances of the further properties *)

Module ExtraExamples.
Import Timestamp Attribution PipelineSpec.
Open Scope Q_scope.

Ltac qdec := unfold Qle, Qlt, Qeq; simpl; lia.

(** An instant whose only service is idle, with a positive epsilon:
    [attribute] returns. *)
Lemma attribute_total_when_epsilon_positive_witness :
  let A := mkAttributor 4 5 (1 # 100) in
  let al := [("2024-01-01T00:00:01+00:00"%string,
              mkAligned (mkShelly 10 None) [("A"%string, mkService 0 0 None)])] in
  0 < cpu_epsilon_cores A /\ exists out, attribute A al = Some out.
Proof.
  intros A al. assert (H : 0 < cpu_epsilon_cores A) by qdec.
  split; [exact H|exact (AttributeExtra.attribute_total_when_epsilon_positive A al H)].
Defined.

(** The same instant with [cpu_epsilon_cores = 0]: [attribute] raises. *)
Lemma attribute_raises_on_idle_instant_without_epsilon_witness :
  let A := mkAttributor 4 5 0 in
  let d := mkAligned (mkShelly 10 None) [("A"%string, mkService 0 0 None)] in
  let al := [("2024-01-01T00:00:01+00:00"%string, d)] in
  cpu_epsilon_cores A <= 0 /\ a_services d <> [] /\ cpu_total_of (a_services d) == 0 /\
  attribute A al = None.
Proof.
  intros A d al.
  assert (H1 : cpu_epsilon_cores A <= 0) by qdec.
  assert (H2 : a_services d <> []) by discriminate.
  assert (H3 : cpu_total_of (a_services d) == 0) by (vm_compute; reflexivity).
  split; [exact H1|]. split; [exact H2|]. split; [exact H3|].
  exact (AttributeExtra.attribute_raises_on_idle_instant_without_epsilon A al _ d H1
           (or_introl eq_refl) H2 H3).
Defined.

(** Two services sharing 10 W: both estimates lie in [0, 10]. *)
Lemma attribute_estimates_between_zero_and_power_witness :
  let A := mkAttributor 4 5 (1 # 100) in
  let al := [("2024-01-01T00:00:01+00:00"%string,
              mkAligned (mkShelly 10 None)
                [("A"%string, mkService 1 25 None); ("B"%string, mkService 3 75 None)])] in
  Forall (fun '(_, d) => 0 <= power_w (a_shelly d) /\
                         Forall (fun '(_, s) => 0 <= cpu_cores_used s) (a_services d)) al /\
  match attribute A al with
  | Some out =>
      Forall (fun '(_, d) =>
                Forall (fun '(_, s) => exists v, estimated_power_from_shelly_watt s = Some v /\
                                                 0 <= v <= power_w (a_shelly d))
                       (a_services d)) out
  | None => False
  end.
Proof.
  intros A al.
  assert (H : Forall (fun '(_, d) => 0 <= power_w (a_shelly d) /\
                         Forall (fun '(_, s) => 0 <= cpu_cores_used s) (a_services d)) al).
  { repeat constructor; qdec. }
  split; [exact H|].
  destruct (attribute A al) as [out|] eqn:E.
  - exact (AttributeExtra.attribute_estimates_between_zero_and_power A al out H E).
  - vm_compute in E. discriminate E.
Defined.

(** A CPU sample carrying [cpu_percent_host] on a host declared with zero
    cores: [build_timeline] raises. *)
Lemma build_timeline_zero_host_cores_raises_witness :
  let A := mkAttributor 0 5 (1 # 100) in
  let s := mkCpuSample (Some "2024-01-01T00:00:01"%string) (Some 1) (Some 25) in
  host_cpu_cores A = 0%Z /\ c_ts s = Some "2024-01-01T00:00:01"%string /\
  c_cpu_cores_used s <> None /\
  normalize_ts "2024-01-01T00:00:01"%string = Some "2024-01-01T00:00:01+00:00"%string /\
  build_timeline A [] ([] ++ ("A"%string, [] ++ s :: []) :: []) = None.
Proof.
  intros A s.
  assert (H1 : host_cpu_cores A = 0%Z) by reflexivity.
  assert (H2 : c_ts s = Some "2024-01-01T00:00:01"%string) by reflexivity.
  assert (H3 : c_cpu_cores_used s <> None) by discriminate.
  assert (H4 : normalize_ts "2024-01-01T00:00:01"%string
               = Some "2024-01-01T00:00:01+00:00"%string) by (vm_compute; reflexivity).
  split; [exact H1|]. split; [exact H2|]. split; [exact H3|]. split; [exact H4|].
  exact (BuildExtra.build_timeline_zero_host_cores_raises A [] [] "A"%string [] s [] []
           _ _ H1 H2 H3 H4).
Defined.

Definition ex_attributor : Attributor := mkAttributor 4 5 (1 # 100).

Definition ex_power : list PowerSample :=
  [mkPowerSample (Some "2024-01-01T00:00:02"%string) (Some 20) None].

(** Service [A] sampled twice at the same instant, written once in UTC and
    once with a [+01:00] offset. *)
Definition ex_cpu : dict (list CpuSample) :=
  [("A"%string,
    [mkCpuSample (Some "2024-01-01T00:00:01"%string) (Some 1) None;
     mkCpuSample (Some "2024-01-01T01:00:01+01:00"%string) (Some 2) (Some 50)]);
   ("B"%string,
    [mkCpuSample (Some "2024-01-01T00:00:03Z"%string) (Some 3) None])].

Lemma build_timeline_cpu_last_write_witness :
  match build_timeline ex_attributor ex_power ex_cpu with
  | Some tl => forall k service,
      service_at tl k service = last_cpu_record ex_attributor k service ex_cpu
  | None => False
  end.
Proof.
  destruct (build_timeline ex_attributor ex_power ex_cpu) as [tl|] eqn:E.
  - exact (BuildExtra.build_timeline_cpu_last_write _ _ _ tl E).
  - vm_compute in E. discriminate E.
Defined.

Lemma build_timeline_keys_canonical_witness :
  match build_timeline ex_attributor ex_power ex_cpu with
  | Some tl => NoDup (map fst tl) /\ Forall (fun k => normalize_ts k = Some k) (map fst tl)
  | None => False
  end.
Proof.
  destruct (build_timeline ex_attributor ex_power ex_cpu) as [tl|] eqn:E.
  - exact (BuildExtra.build_timeline_keys_canonical _ _ _ tl E).
  - vm_compute in E. discriminate E.
Defined.

Lemma align_timeline_total_on_built_timeline_witness :
  match build_timeline ex_attributor ex_power ex_cpu with
  | Some tl => exists al, align_timeline (mkAttributor 4 0 0) tl = Some al
  | None => False
  end.
Proof.
  destruct (build_timeline ex_attributor ex_power ex_cpu) as [tl|] eqn:E.
  - exact (BuildExtra.align_timeline_total_on_built_timeline _ (mkAttributor 4 0 0) _ _ tl E).
  - vm_compute in E. discriminate E.
Defined.

Lemma run_pipeline_raises_only_in_build_timeline_witness :
  0 < cpu_epsilon_cores ex_attributor /\
  match build_timeline ex_attributor ex_power ex_cpu with
  | Some tl => exists out, run_pipeline ex_attributor ex_power ex_cpu = Some out
  | None => False
  end.
Proof.
  assert (H : 0 < cpu_epsilon_cores ex_attributor) by qdec.
  split; [exact H|].
  destruct (build_timeline ex_attributor ex_power ex_cpu) as [tl|] eqn:E.
  - exact (BuildExtra.run_pipeline_raises_only_in_build_timeline _ _ _ tl H E).
  - vm_compute in E. discriminate E.
Defined.

(** A power entry under a key that does not parse, far from the only
    services entry: [align_timeline] raises. *)
Lemma align_timeline_raises_on_unparsable_timestamp_witness :
  let tl := [("not-a-time"%string, mkEntry (Some (mkShelly 10 None)) None);
             ("2024-01-01T00:00:01+00:00"%string,
              mkEntry None (Some [("A"%string, mkService 1 25 None)]))] in
  service_only tl <> [] /\
  ts_to_epoch "not-a-time"%string = None /\
  align_timeline (mkAttributor 4 5 (1 # 100)) tl = None.
Proof.
  intros tl.
  assert (H1 : service_only tl <> []) by (vm_compute; discriminate).
  assert (H2 : ts_to_epoch "not-a-time"%string = None) by (vm_compute; reflexivity).
  assert (H3 : In ("not-a-time"%string, mkShelly 10 None) (shelly_only tl))
    by (vm_compute; left; reflexivity).
  split; [exact H1|]. split; [exact H2|].
  exact (BuildExtra.align_timeline_raises_on_unparsable_timestamp _ tl H1
           (or_introl (ex_intro _ _ (ex_intro _ _ (conj H3 H2))))).
Defined.

End ExtraExamples.

Module ExtraExamples2.
Import Resolver CoreSeries.

Definition ex_range : string -> string -> string -> string -> call_outcome unit :=
  fun q _ _ _ =>
    if String.eqb q "sum by (service_name) (rate(http_server_request_duration_count[1m]))"%string
    then Returned (JList [])
    else Returned (JList [tt]).

Definition ex_paths : Attribution.dict string :=
  [("requests", "requests.json"); ("p95", "p95.json"); ("cpu", "cpu.json")]%string.

Definition ex_paths_no_p95 : Attribution.dict string :=
  [("requests", "requests.json"); ("cpu", "cpu.json")]%string.

(** A completed export: the requests file is among its effects. *)
Lemma export_core_series_writes_after_all_resolved_witness :
  let res := export_core_series ex_range (fun _ => true) "s"%string "e"%string "5s"%string
               ex_paths in
  In (Written "requests.json"%string (JList [tt])) (snd res) /\
  exists v1 v2 v3,
    fst (first_non_empty ex_range req_candidates "s"%string "e"%string "5s"%string) = Ret v1 /\
    fst (first_non_empty ex_range p95_candidates "s"%string "e"%string "5s"%string) = Ret v2 /\
    fst (first_non_empty ex_range cpu_candidates "s"%string "e"%string "5s"%string) = Ret v3.
Proof.
  intros res.
  assert (Hin : In (Written "requests.json"%string (JList [tt])) (snd res)).
  { vm_compute. repeat (try (left; reflexivity); right). }
  split; [exact Hin|].
  exact (CoreSeriesExtra.export_core_series_writes_after_all_resolved ex_range (fun _ => true)
           "s"%string "e"%string "5s"%string ex_paths (fst res) (snd res) _ _
           (surjective_pairing res) Hin).
Defined.

Lemma export_core_series_completed_witness :
  match export_core_series ex_range (fun _ => true) "s"%string "e"%string "5s"%string ex_paths
  with
  | (Completed, effs) =>
      exists v1 v2 v3 p1 p2 p3,
        fst (first_non_empty ex_range req_candidates "s"%string "e"%string "5s"%string) = Ret v1 /\
        fst (first_non_empty ex_range p95_candidates "s"%string "e"%string "5s"%string) = Ret v2 /\
        fst (first_non_empty ex_range cpu_candidates "s"%string "e"%string "5s"%string) = Ret v3 /\
        Attribution.d_lookup "requests"%string ex_paths = Some p1 /\
        Attribution.d_lookup "p95"%string ex_paths = Some p2 /\
        Attribution.d_lookup "cpu"%string ex_paths = Some p3 /\
        effs = map Queried (snd (first_non_empty ex_range req_candidates "s"%string "e"%string "5s"%string))
               ++ map Queried (snd (first_non_empty ex_range p95_candidates "s"%string "e"%string "5s"%string))
               ++ map Queried (snd (first_non_empty ex_range cpu_candidates "s"%string "e"%string "5s"%string))
               ++ [Written p1 v1; Written p2 v2; Written p3 v3]
  | (Failed _, _) => False
  end.
Proof.
  destruct (export_core_series ex_range (fun _ => true) "s"%string "e"%string "5s"%string ex_paths)
    as [[|e] effs] eqn:E.
  - exact (CoreSeriesExtra.export_core_series_completed ex_range (fun _ => true)
             "s"%string "e"%string "5s"%string ex_paths effs E).
  - vm_compute in E. discriminate E.
Defined.

Lemma export_core_series_missing_p95_path_witness :
  export_core_series ex_range (fun _ => true) "s"%string "e"%string "5s"%string ex_paths_no_p95 =
  (Failed "KeyError"%string,
   map Queried (snd (first_non_empty ex_range req_candidates "s"%string "e"%string "5s"%string))
   ++ map Queried (snd (first_non_empty ex_range p95_candidates "s"%string "e"%string "5s"%string))
   ++ map Queried (snd (first_non_empty ex_range cpu_candidates "s"%string "e"%string "5s"%string))
   ++ [Written "requests.json"%string (JList [tt])]).
Proof.
  apply (CoreSeriesExtra.export_core_series_missing_p95_path ex_range (fun _ => true)
           "s"%string "e"%string "5s"%string ex_paths_no_p95 (JList [tt]) (JList [tt]) (JList [tt]));
    vm_compute; reflexivity.
Defined.

End ExtraExamples2.

Module ExtraExamples3.
Import Timestamp ShellyRecords Runner.
Local Open Scope string_scope.

Definition ex_now : datetime := mkDT 2024 3 5 12 30 15 250000 (Some 0%Z).

(** A status without [apower]; [energy_total_Wh] is added. *)
Lemma read_once_record_shape_witness :
  let d := [("voltage", JNum 230); ("aenergy", JObj [("total", JNum 1500)])] in
  valid_date (year ex_now) (month ex_now) (day ex_now) = true /\
  valid_time (hour ex_now) (minute ex_now) (second ex_now) (microsecond ex_now) = true /\
  tzoff ex_now = Some 0%Z /\
  match read_once (fun _ => None) ex_now (Some (JObj d)) with
  | Some r =>
      exists k pw rest,
        r = ("ts", JStr k) :: ("power_w", JNum pw)
              :: ("voltage_V", get d "voltage" JNull) :: rest /\
        normalize_ts k = Some k /\
        (Attribution.d_lookup "apower" d = None -> pw = 0%Q) /\
        (rest = [] \/ exists e, rest = [("energy_total_Wh", JNum e)])
  | None => False
  end.
Proof.
  intros d.
  assert (H1 : valid_date (year ex_now) (month ex_now) (day ex_now) = true) by reflexivity.
  assert (H2 : valid_time (hour ex_now) (minute ex_now) (second ex_now) (microsecond ex_now)
               = true) by reflexivity.
  assert (H3 : tzoff ex_now = Some 0%Z) by reflexivity.
  split; [exact H1|]. split; [exact H2|]. split; [exact H3|].
  destruct (read_once (fun _ => None) ex_now (Some (JObj d))) as [r|] eqn:E.
  - exact (ShellyRecordsExtra.read_once_record_shape _ ex_now d r H1 H2 H3 E).
  - vm_compute in E. discriminate E.
Defined.

Definition ex_loads (line : string) : option json :=
  if String.eqb line "reading" then Some (JObj [("ts", JStr "t1"); ("power_w", JNum 12)])
  else if String.eqb line "error" then Some (JObj [("ts", JStr "t2"); ("error", JStr "timeout")])
  else if String.eqb line "number" then Some (JNum 3)
  else None.

(** A reading, an unparsable line and an error record: only the reading
    is kept. *)
Lemma load_shelly_jsonl_objects_witness :
  (forall line, In line ["reading"; "{broken"; "error"] ->
     match ex_loads line with Some (JObj _) | None => True | Some _ => False end) /\
  load_shelly_jsonl ex_loads ["reading"; "{broken"; "error"] =
  Some (flat_map (fun line => match ex_loads line with
                              | Some (JObj d) =>
                                  if ShellyRecordsExtra.has_key "ts" d &&
                                     ShellyRecordsExtra.has_key "power_w" d
                                  then [JObj d] else []
                              | _ => []
                              end) ["reading"; "{broken"; "error"]).
Proof.
  assert (H : forall line, In line ["reading"; "{broken"; "error"] ->
     match ex_loads line with Some (JObj _) | None => True | Some _ => False end).
  { intros line Hin. destruct Hin as [<-|[<-|[<-|[]]]]; vm_compute; exact I. }
  split; [exact H|]. exact (ShellyRecordsExtra.load_shelly_jsonl_objects ex_loads _ H).
Defined.

(** A line holding the number [3] after a valid reading: the loader
    raises. *)
Lemma load_shelly_jsonl_scalar_line_raises_witness :
  (exists q, ex_loads "number" = Some (JNum q)) /\
  load_shelly_jsonl ex_loads (["reading"] ++ "number" :: ["error"])%list = None.
Proof.
  assert (H : exists q, ex_loads "number" = Some (JNum q)) by (exists 3%Q; vm_compute; reflexivity).
  split; [exact H|].
  exact (ShellyRecordsExtra.load_shelly_jsonl_scalar_line_raises ex_loads ["reading"] ["error"]
           "number" (or_intror (or_intror H))).
Defined.

Definition ex_raw : Attribution.dict (list RawCpuSample) :=
  [("A", [mkRawCpu (Some "t1") None (Some 50); mkRawCpu None (Some 1) None;
          mkRawCpu (Some "t2") (Some 2) None]);
   ("B", [mkRawCpu (Some "t3") None None])].

Lemma load_cadvisor_json_entries_witness :
  match Attribution.d_lookup "A" (load_cadvisor_json ex_raw 4) with
  | Some l =>
      l <> [] /\
      (exists samples, In ("A", samples) ex_raw /\ l = clean_samples 4 samples) /\
      Forall (fun c => exists t co p,
                  c = Attribution.mkCpuSample (Some t) (Some co) (Some p)) l
  | None => False
  end.
Proof.
  destruct (Attribution.d_lookup "A" (load_cadvisor_json ex_raw 4)) as [l|] eqn:E.
  - exact (RunnerExtra.load_cadvisor_json_entries ex_raw 4 "A" l E).
  - vm_compute in E. discriminate E.
Defined.

(** Half past eleven on New Year's Eve at [+02:00]: one hour later in
    wall-clock time is the next year, written as UTC. *)
Lemma normalize_shelly_timestamp_canonical_witness :
  match normalize_shelly_timestamp "2024-12-31T23:30:00+02:00" with
  | Some k => k = "2025-01-01T00:30:00+00:00" /\ normalize_ts k = Some k
  | None => False
  end.
Proof.
  destruct (normalize_shelly_timestamp "2024-12-31T23:30:00+02:00") as [k|] eqn:E.
  - split; [vm_compute in E; injection E as <-; reflexivity|].
    exact (RunnerExtra.normalize_shelly_timestamp_canonical _ k E).
  - vm_compute in E. discriminate E.
Defined.

(** Ten o'clock at [+02:00] and ten o'clock and a quarter second with no
    offset: both normalize to eleven o'clock UTC. *)
Lemma normalize_shelly_timestamp_ignores_offset_witness :
  normalize_shelly_timestamp "2024-01-01T10:00:00+02:00" =
  normalize_shelly_timestamp "2024-01-01T10:00:00.250" /\
  normalize_shelly_timestamp "2024-01-01T10:00:00.250" = Some "2024-01-01T11:00:00+00:00".
Proof.
  assert (E1 : fromisoformat (list_ascii_of_string "2024-01-01T10:00:00+02:00")
               = Some (mkDT 2024 1 1 10 0 0 0 (Some 7200000000%Z))) by (vm_compute; reflexivity).
  assert (E2 : fromisoformat (list_ascii_of_string "2024-01-01T10:00:00.250")
               = Some (mkDT 2024 1 1 10 0 0 250000 None)) by (vm_compute; reflexivity).
  split; [|vm_compute; reflexivity].
  exact (RunnerExtra.normalize_shelly_timestamp_ignores_offset _ _ _ _ E1 E2
           eq_refl eq_refl eq_refl eq_refl eq_refl eq_refl).
Defined.

End ExtraExamples3.

Module ExtraExamples4.
Import Timestamp Duration DurationExtra.


(** ["10ms"] and ["1.5h"] raise [ValueError]. *)
Lemma parse_duration_rejects_non_integer_counts_witness :
  int_char "m"%char = false /\
  parse_duration ("10" ++ String "m" ("" ++ String "s" EmptyString))%string = None /\
  int_char "."%char = false /\
  parse_duration ("1" ++ String "." ("5" ++ String "h" EmptyString))%string = None.
Proof.
  assert (Hm : int_char "m"%char = false) by (vm_compute; reflexivity).
  assert (Hd : int_char "."%char = false) by (vm_compute; reflexivity).
  split; [exact Hm|]. split; [exact (parse_duration_rejects_non_integer_counts _ _ _ _ Hm)|].
  split; [exact Hd|]. exact (parse_duration_rejects_non_integer_counts _ _ _ _ Hd).
Defined.

(** ["2024-12-31T23:30:00.250000-01:00"] normalizes to
    ["2025-01-01T00:30:00+00:00"]; both lie in the same second. *)
Lemma normalize_ts_keeps_instant_witness :
  normalize_ts "2024-12-31T23:30:00.250000-01:00"%string
  = Some "2025-01-01T00:30:00+00:00"%string /\
  exists (z us : Z),
    ts_to_epoch "2024-12-31T23:30:00.250000-01:00"%string
    = Some (Qmake (z * 1000000 + us) 1000000) /\
    ts_to_epoch "2025-01-01T00:30:00+00:00"%string
    = Some (Qmake (z * 1000000) 1000000) /\
    (0 <= us <= 999999)%Z.
Proof.
  assert (E : normalize_ts "2024-12-31T23:30:00.250000-01:00"%string
              = Some "2025-01-01T00:30:00+00:00"%string) by (vm_compute; reflexivity).
  split; [exact E|].
  exact (EpochExtra.normalize_ts_keeps_instant _ _ E).
Defined.

End ExtraExamples4.
